(** * vita: directory walker with a text/binary classifier

    A shallow embedding of the C sources of vita (file.c, utils.c,
    traverse.c, main.c) and the properties of its specification.

    Conventions of the embedding.
    - A byte is an [ascii]; a C string, a file's content and everything
      written to a stream is a [string].  [u8] reads a byte as the
      [unsigned char] value the C code compares.
    - The host (libc and the file system) is not part of the program.  Its
      answers are data: a file carries what [fopen]/[malloc] answer, a
      directory carries what [opendir], [readdir] and [stat] answer for the
      paths the Walker builds.  The POSIX branch of traverse.c is the one
      embedded.
    - Effects are recorded as a trace of [event]s in program order; the text
      that reaches the output sink is the concatenation of its [Out] events. *)

From Stdlib Require Import Floats.PrimFloat.
From Stdlib Require Numbers.Cyclic.Int63.Uint63.
From Stdlib Require Import ZArith List Bool Lia Ascii String.
Import ListNotations.

Open Scope string_scope.
Open Scope Z_scope.

(** ** Bytes and streams *)

Definition u8 (c : ascii) : Z := Z.of_N (N_of_ascii c).

Definition NUL : ascii := Ascii.zero.
Definition LF : ascii := ascii_of_nat 10.
Definition CR : ascii := ascii_of_nat 13.
Definition TAB : ascii := ascii_of_nat 9.

Definition nl : string := String LF "".

(** [strlen] as a C integer. *)
Definition strlen (s : string) : Z := Z.of_nat (String.length s).

(** The first [n] bytes of a stream: what [fread(buf, 1, n, fp)] stores from a
    freshly opened file, and what [snprintf]/[strncpy] keep of a longer text. *)
Fixpoint take (n : nat) (s : string) : string :=
  match n, s with
  | O, _ => ""
  | S _, "" => ""
  | S k, String c r => String c (take k r)
  end.

(** ** file.c: the classifier *)

Module File.

Definition BINARY_CHECK_BYTES : nat := 2048.

(** The loop index [i] and [len] are carried as the unread suffix
    [buf[i..len)]: [i + k >= len] holds exactly when the suffix has at most
    [k] bytes. *)
Fixpoint is_valid_utf8 (buf : string) : bool :=
  match buf with
  | "" => true
  | String b0 r0 =>
      if u8 b0 <=? 0x7F then is_valid_utf8 r0
      else if Z.land (u8 b0) 0xE0 =? 0xC0 then
        match r0 with
        | String b1 r1 =>
            if negb (Z.land (u8 b1) 0xC0 =? 0x80) then false
            else is_valid_utf8 r1
        | _ => false
        end
      else if Z.land (u8 b0) 0xF0 =? 0xE0 then
        match r0 with
        | String b1 (String b2 r2) =>
            if negb (Z.land (u8 b1) 0xC0 =? 0x80)
               || negb (Z.land (u8 b2) 0xC0 =? 0x80) then false
            else is_valid_utf8 r2
        | _ => false
        end
      else if Z.land (u8 b0) 0xF8 =? 0xF0 then
        match r0 with
        | String b1 (String b2 (String b3 r3)) =>
            if negb (Z.land (u8 b1) 0xC0 =? 0x80)
               || negb (Z.land (u8 b2) 0xC0 =? 0x80)
               || negb (Z.land (u8 b3) 0xC0 =? 0x80) then false
            else is_valid_utf8 r3
        | _ => false
        end
      else false
  end.

Fixpoint is_valid_shift_jis (buf : string) : bool :=
  match buf with
  | "" => true
  | String c r0 =>
      if (u8 c <=? 0x7F) || ((0xA1 <=? u8 c) && (u8 c <=? 0xDF)) then
        is_valid_shift_jis r0
      else if ((0x81 <=? u8 c) && (u8 c <=? 0x9F))
              || ((0xE0 <=? u8 c) && (u8 c <=? 0xEF)) then
        match r0 with
        | String c2 r1 =>
            if negb (((0x40 <=? u8 c2) && (u8 c2 <=? 0x7E))
                     || ((0x80 <=? u8 c2) && (u8 c2 <=? 0xFC))) then false
            else is_valid_shift_jis r1
        | "" => false
        end
      else false
  end.

(** [isprint] of <ctype.h> in the "C" locale (the program never calls
    [setlocale]): the characters 0x20 to 0x7E. *)
Definition isprint (c : ascii) : bool := (0x20 <=? u8 c) && (u8 c <=? 0x7E).

(** The counting loop of [is_binary].  [None] is the [return 1] taken from
    inside the loop at a zero byte; [Some n] is [non_printable] at loop exit. *)
Fixpoint count_non_printable (buf : string) (non_printable : Z) : option Z :=
  match buf with
  | "" => Some non_printable
  | String c r =>
      if u8 c =? 0 then None
      else if negb (isprint c) && negb (Ascii.eqb c LF)
              && negb (Ascii.eqb c CR) && negb (Ascii.eqb c TAB)
      then count_non_printable r (non_printable + 1)
      else count_non_printable r non_printable
  end.

(** [(double)n] for a [size_t] and the comparison
    [(double)non_printable / (double)read_len > 0.25], computed with the
    kernel's IEEE 754 binary64 numbers. *)
Definition double_of_size_t (n : Z) : PrimFloat.float :=
  PrimFloat.of_uint63 (Uint63.of_Z n).

Definition ratio_exceeds_quarter (non_printable read_len : Z) : bool :=
  PrimFloat.ltb 0.25%float
    (PrimFloat.div (double_of_size_t non_printable) (double_of_size_t read_len)).

(** Return codes of [is_binary], under the names the specification gives
    them. *)
Definition Unreadable : Z := -1.
Definition Text : Z := 0.
Definition Binary : Z := 1.

(** [is_binary] from the first validation on: [buf] holds the [read_len]
    bytes that [fread] stored. *)
Definition classify (buf : string) : Z :=
  let read_len := strlen buf in
  if is_valid_utf8 buf then 0
  else if is_valid_shift_jis buf then 0
  else
    match count_non_printable buf 0 with
    | None => 1
    | Some non_printable =>
        if (0 <? read_len) && ratio_exceeds_quarter non_printable read_len
        then 1
        else 0
    end.

(** [is_binary(path)]: [fopen_rb] is what [fopen(path, "rb")] answers (the
    content of the file, or [None] for a null pointer), [malloc_ok] whether
    [malloc(BINARY_CHECK_BYTES)] succeeds. *)
Definition is_binary (fopen_rb : option string) (malloc_ok : bool) : Z :=
  match fopen_rb with
  | None => -1
  | Some content =>
      if negb malloc_ok then -1
      else classify (take BINARY_CHECK_BYTES content)
  end.

End File.

(** ** Traces *)

Inductive event : Type :=
| Enter (dir_path : string) (depth : Z)      (* traverse_directory is called *)
| Opendir (path : string) (ok : bool)
| Stat (path : string) (ok : bool)
| Fopen (path mode : string) (ok : bool)
| Out (text : string)                        (* fprintf(out, ...) *)
| Printf (text : string)                     (* printf(...) *)
| Eprintf (text : string)                    (* fprintf(stderr, ...) *)
| Perror (prefix : string).                  (* perror(prefix) *)

Definition trace : Type := list event.

(** The text written to the output sink, in order. *)
Fixpoint sink (t : trace) : string :=
  match t with
  | [] => ""
  | Out text :: t' => text ++ sink t'
  | _ :: t' => sink t'
  end.

(** The depths at which [traverse_directory] was called, in order. *)
Fixpoint entered (t : trace) : list (string * Z) :=
  match t with
  | [] => []
  | Enter p k :: t' => (p, k) :: entered t'
  | _ :: t' => entered t'
  end.

(** The paths handed to [fopen] for reading, with the mode, in order. *)
Fixpoint opened (t : trace) : list (string * string) :=
  match t with
  | [] => []
  | Fopen p mode _ :: t' => (p, mode) :: opened t'
  | _ :: t' => opened t'
  end.

(** What the host answers about one file: [fopen(path, "rb")] and [malloc]
    inside [is_binary], then [fopen(path, "r")] in [print_file_content].  The
    two opens are separate requests and may be answered differently. *)
Record file_host : Type := {
  fopen_rb : option string;
  malloc_ok : bool;
  fopen_r : option string
}.

(** ** utils.c *)

Module Utils.

Definition BUFFER_SIZE : nat := 1024.
Definition MAX_PATH_LENGTH : nat := 4096.

(** [snprintf(dst, size, ...)] keeps at most [size - 1] bytes of the
    formatted text. *)
Definition snprintf (size : nat) (formatted : string) : string :=
  take (size - 1) formatted.

Definition is_sep (c : ascii) : bool := Ascii.eqb c "/" || Ascii.eqb c "\".

(** First loop of [normalize_path]: every backslash becomes a slash. *)
Fixpoint to_slashes (path : string) : string :=
  match path with
  | "" => ""
  | String c r => String (if Ascii.eqb c "\" then "/"%char else c) (to_slashes r)
  end.

(** Second loop of [normalize_path]: the terminator moves back over every
    trailing separator. *)
Fixpoint strip_trailing (path : string) : string :=
  match path with
  | "" => ""
  | String c r =>
      match strip_trailing r with
      | "" => if is_sep c then "" else String c ""
      | r' => String c r'
      end
  end.

Definition normalize_path (path : string) : string :=
  strip_trailing (to_slashes path).

(** [fgets(buffer, size, fp)] on a stream with [stream] left to read: at most
    [size - 1] bytes, ending after the first newline.  The result is the
    bytes stored and the rest of the stream; [None] is the null pointer at
    end of file. *)
Fixpoint read_line (n : nat) (stream : string) : string * string :=
  match n, stream with
  | O, _ => ("", stream)
  | S _, "" => ("", "")
  | S k, String c r =>
      if Ascii.eqb c LF then (String c "", r)
      else let (line, rest) := read_line k r in (String c line, rest)
  end.

Definition fgets (size : nat) (stream : string) : option (string * string) :=
  match stream with
  | "" => None
  | _ => Some (read_line (size - 1) stream)
  end.

(** What ["%s"] prints of a buffer: the bytes before its first zero byte. *)
Fixpoint c_str (buffer : string) : string :=
  match buffer with
  | "" => ""
  | String c r => if Ascii.eqb c NUL then "" else String c (c_str r)
  end.

(** [while (fgets(buffer, sizeof(buffer), fp)) fprintf(out, "%s", buffer);]
    Every successful [fgets] consumes a byte, so [S (length stream)]
    iterations reach the end of the file (see [echo_lines_fuel]). *)
Fixpoint echo_lines (fuel : nat) (stream : string) : trace :=
  match fuel with
  | O => []
  | S k =>
      match fgets BUFFER_SIZE stream with
      | None => []
      | Some (buffer, rest) => Out (c_str buffer) :: echo_lines k rest
      end
  end.

Definition rule_dash : string :=
  "--------------------------------------------------------------------------------" ++ nl.

Definition is_some {A : Type} (o : option A) : bool :=
  match o with Some _ => true | None => false end.

Definition print_file_content (path : string) (f : file_host) : trace :=
  let bin := File.is_binary (fopen_rb f) (malloc_ok f) in
  (Fopen path "rb" (is_some (fopen_rb f))
   :: Out rule_dash
   :: Out (path ++ ":" ++ nl)
   :: Out rule_dash
   :: (if bin =? -1 then
         [Out ("Cannot open file: " ++ path ++ nl ++ nl)]
       else if bin =? 1 then
         [Out ("This is binary file" ++ nl ++ nl)]
       else
         match fopen_r f with
         | None =>
             [Fopen path "r" false;
              Out ("Cannot open file: " ++ path ++ nl ++ nl)]
         | Some content =>
             Fopen path "r" true
             :: echo_lines (S (String.length content)) content ++ [Out nl]
         end))%list.

Definition print_usage : trace :=
  [Printf ("Usage: vita [OPTIONS] <DIR_PATH>" ++ nl);
   Printf ("Options:" ++ nl);
   Printf ("  -o <FILE>   Write output to <FILE> instead of standard output." ++ nl);
   Printf ("  -d <DEPTH>  Set maximum depth for directory traversal (default: unlimited)." ++ nl);
   Printf ("  -h, --help Show this help message and exit." ++ nl)].

End Utils.

(** ** traverse.c *)

Module Traverse.

Import Utils.

(** What the host answers along one traversal: [opendir] for a directory,
    then the names [readdir] yields in its order, and for each name what
    [stat] says about the path the Walker built for it. *)
Inductive DIR : Type :=
| Opendir_fails
| Opened (entries : dirstream)
with dirstream : Type :=
| End_of_dir
| Readdir (d_name : string) (st : stat_answer) (rest : dirstream)
with stat_answer : Type :=
| Stat_fails
| Not_dir (f : file_host)
| Is_dir (d : DIR).

Scheme DIR_mut := Induction for DIR Sort Prop
  with dirstream_mut := Induction for dirstream Sort Prop
  with stat_answer_mut := Induction for stat_answer Sort Prop.

Combined Scheme host_tree_ind from DIR_mut, dirstream_mut, stat_answer_mut.

Definition is_dot (name : string) : bool :=
  String.eqb name "." || String.eqb name "..".

Definition child_path (dir_path name : string) : string :=
  normalize_path (snprintf MAX_PATH_LENGTH (dir_path ++ "/" ++ name)).

(** [depth] is a C [int]; it grows by one per level of an existing directory
    tree, whose paths are bounded by the host, and is kept unbounded here. *)
Fixpoint traverse_directory (dir_path : string) (d : DIR) (depth max_depth : Z)
    (output_file_path : string) {struct d} : trace :=
  Enter dir_path depth ::
  if negb (max_depth =? -1) && (max_depth <? depth) then []
  else
    match d with
    | Opendir_fails =>
        [Opendir dir_path false;
         Out ("Cannot open directory: " ++ dir_path ++ nl)]
    | Opened entries =>
        Opendir dir_path true
        :: readdir_loop dir_path entries depth max_depth output_file_path
    end
with readdir_loop (dir_path : string) (entries : dirstream) (depth max_depth : Z)
    (output_file_path : string) {struct entries} : trace :=
  match entries with
  | End_of_dir => []
  | Readdir name st rest =>
      let continue := readdir_loop dir_path rest depth max_depth output_file_path in
      if is_dot name then continue
      else
        let path := child_path dir_path name in
        match st with
        | Stat_fails => Stat path false :: Perror "stat" :: continue
        | Is_dir d' =>
            Stat path true ::
            (if (max_depth =? -1) || (depth <? max_depth) then
               traverse_directory path d' (depth + 1) max_depth output_file_path
             else []) ++ continue
        | Not_dir f =>
            Stat path true ::
            (if String.eqb path output_file_path then continue
             else print_file_content path f ++ continue)
        end
  end%list.

End Traverse.

(** ** main.c *)

Module Main.

Import Utils Traverse.

Definition MAX_OUTPUT_FILE : nat := 256.
Definition EXIT_SUCCESS : Z := 0.
Definition EXIT_FAILURE : Z := 1.

Record Options : Type := { output_file : string; max_depth : Z }.

(** One answer of [getopt_long]: the option character, with [optarg] (and
    what [atoi] makes of it) or [optopt]. *)
Inductive getopt_answer : Type :=
| Opt_o (optarg : string)
| Opt_d (optarg : string) (atoi_optarg : Z)
| Opt_h
| Opt_unknown (optopt : option ascii)
| Opt_other.

(** The host's side of one run of [main]. *)
Record host : Type := {
  argc : Z;
  getopt_long : list getopt_answer;   (* the answers before -1 *)
  operand : option string;            (* argv[optind]; None: optind >= argc *)
  stat_dir : option bool;             (* stat(dir_path): None fails, else S_ISDIR *)
  realpath : option string;           (* realpath(opts.output_file, ...) *)
  getcwd : option string;
  fopen_w : bool;                     (* fopen(opts.output_file, "w") succeeds *)
  root : DIR                          (* the tree under the root path *)
}.

(** The option loop: [inl] is a [return] from inside the loop. *)
Fixpoint option_loop (answers : list getopt_answer) (opts : Options)
  : trace * (Z + Options) :=
  match answers with
  | [] => ([], inr opts)
  | Opt_o optarg :: more =>
      option_loop more
        {| output_file := take (MAX_OUTPUT_FILE - 1) optarg;
           max_depth := max_depth opts |}
  | Opt_d optarg n :: more =>
      if n <? 0 then
        ([Eprintf ("Error: Invalid depth value '" ++ optarg
                   ++ "'. Must be a non-negative integer." ++ nl)],
         inl EXIT_FAILURE)
      else option_loop more {| output_file := output_file opts; max_depth := n |}
  | Opt_h :: _ => (print_usage, inl EXIT_SUCCESS)
  | Opt_unknown optopt :: _ =>
      ((match optopt with
        | Some c => Eprintf ("vita: unknown option -- " ++ String c nl)
        | None => Eprintf ("vita: unknown option" ++ nl)
        end :: print_usage)%list,
       inl EXIT_FAILURE)
  | Opt_other :: _ => (print_usage, inl EXIT_FAILURE)
  end.

Definition rule_equals : string :=
  "================================================================================" ++ nl.

(** The block that resolves the output file: [inl] is an early return, [inr]
    the content of [output_file_path] once [out] is open. *)
Definition open_output (h : host) (opts : Options) : trace * (Z + string) :=
  if String.eqb (output_file opts) "" then ([], inr "")
  else
    let opened_out (output_file_path : string) : trace * (Z + string) :=
      if fopen_w h then
        ([Fopen (output_file opts) "w" true], inr output_file_path)
      else
        ([Fopen (output_file opts) "w" false;
          Eprintf ("Error: Cannot open output file: " ++ output_file opts ++ nl)],
         inl EXIT_FAILURE) in
    match realpath h with
    | Some resolved => opened_out resolved
    | None =>
        match getcwd h with
        | Some cwd =>
            if Z.of_nat MAX_PATH_LENGTH <=? strlen cwd + strlen (output_file opts) + 1 then
              ([Eprintf ("Error: Output file path is too long." ++ nl)],
               inl EXIT_FAILURE)
            else
              opened_out
                (normalize_path
                   (snprintf MAX_PATH_LENGTH (cwd ++ "/" ++ output_file opts)))
        | None =>
            ([Eprintf ("Error: Cannot get current working directory." ++ nl)],
             inl EXIT_FAILURE)
        end
    end.

Definition main (h : host) : Z * trace :=
  if argc h <? 2 then (EXIT_FAILURE, print_usage)
  else
    match option_loop (getopt_long h) {| output_file := ""; max_depth := -1 |} with
    | (t0, inl code) => (code, t0)
    | (t0, inr opts) =>
        match operand h with
        | None =>
            (EXIT_FAILURE,
             t0 ++ Eprintf ("Error: Directory path not specified." ++ nl) :: print_usage)
        | Some dir_path =>
            match stat_dir h with
            | None =>
                (EXIT_FAILURE,
                 t0 ++ [Stat dir_path false;
                        Eprintf ("Error: Directory '" ++ dir_path ++ "' does not exist." ++ nl)])
            | Some false =>
                (EXIT_FAILURE,
                 t0 ++ [Stat dir_path true;
                        Eprintf ("Error: '" ++ dir_path ++ "' is not a directory." ++ nl)])
            | Some true =>
                match open_output h opts with
                | (t1, inl code) => (code, t0 ++ Stat dir_path true :: t1)
                | (t1, inr output_file_path) =>
                    let normalized_root :=
                      normalize_path (snprintf MAX_PATH_LENGTH dir_path) in
                    (EXIT_SUCCESS,
                     t0 ++ Stat dir_path true :: t1
                     ++ [Out rule_equals;
                         Out (normalized_root ++ "/" ++ nl);
                         Out rule_equals]
                     ++ traverse_directory normalized_root (root h) 0
                          (max_depth opts) output_file_path)
                end
            end
        end
    end%list.

End Main.

(** ** Vocabulary of the specification *)

Import File Utils Traverse Main.

(** A byte sample as the list of its byte values. *)
Definition bytes_of (buf : string) : list Z :=
  map u8 (list_ascii_of_string buf).

(** Bit patterns of UTF-8, read off the bits of a byte (least significant
    bit first in [Ascii]). *)
Definition utf8_single (c : ascii) : bool :=        (* 0xxxxxxx *)
  match c with Ascii _ _ _ _ _ _ _ false => true | _ => false end.
Definition utf8_lead2 (c : ascii) : bool :=         (* 110xxxxx *)
  match c with Ascii _ _ _ _ _ false true true => true | _ => false end.
Definition utf8_lead3 (c : ascii) : bool :=         (* 1110xxxx *)
  match c with Ascii _ _ _ _ false true true true => true | _ => false end.
Definition utf8_lead4 (c : ascii) : bool :=         (* 11110xxx *)
  match c with Ascii _ _ _ false true true true true => true | _ => false end.
Definition utf8_cont (c : ascii) : bool :=          (* 10xxxxxx *)
  match c with Ascii _ _ _ _ _ _ false true => true | _ => false end.

(** A sample that is a sequence of complete encoded code points: a lead byte
    of each length followed by the continuation bytes it announces. *)
Inductive utf8_wellformed : string -> Prop :=
| utf8_end : utf8_wellformed ""
| utf8_1 b0 r :
    utf8_single b0 = true ->
    utf8_wellformed r -> utf8_wellformed (String b0 r)
| utf8_2 b0 b1 r :
    utf8_lead2 b0 = true -> utf8_cont b1 = true ->
    utf8_wellformed r -> utf8_wellformed (String b0 (String b1 r))
| utf8_3 b0 b1 b2 r :
    utf8_lead3 b0 = true -> utf8_cont b1 = true -> utf8_cont b2 = true ->
    utf8_wellformed r -> utf8_wellformed (String b0 (String b1 (String b2 r)))
| utf8_4 b0 b1 b2 b3 r :
    utf8_lead4 b0 = true ->
    utf8_cont b1 = true -> utf8_cont b2 = true -> utf8_cont b3 = true ->
    utf8_wellformed r ->
    utf8_wellformed (String b0 (String b1 (String b2 (String b3 r)))).

(** The byte with a given value. *)
Definition byte_of_Z (z : Z) : ascii := ascii_of_N (Z.to_N z).

(** The UTF-8 encoding of a code point (RFC 3629). *)
Definition utf8_encode (cp : Z) : string :=
  if cp <? 0x80 then
    String (byte_of_Z cp) ""
  else if cp <? 0x800 then
    String (byte_of_Z (0xC0 + cp / 64))
      (String (byte_of_Z (0x80 + cp mod 64)) "")
  else if cp <? 0x10000 then
    String (byte_of_Z (0xE0 + cp / 4096))
      (String (byte_of_Z (0x80 + (cp / 64) mod 64))
         (String (byte_of_Z (0x80 + cp mod 64)) ""))
  else
    String (byte_of_Z (0xF0 + cp / 262144))
      (String (byte_of_Z (0x80 + (cp / 4096) mod 64))
         (String (byte_of_Z (0x80 + (cp / 64) mod 64))
            (String (byte_of_Z (0x80 + cp mod 64)) ""))).

(** Unicode scalar values: the code points outside the surrogate range. *)
Definition unicode_scalar (cp : Z) : Prop :=
  0 <= cp < 0xD800 \/ 0xE000 <= cp <= 0x10FFFF.

Fixpoint utf8_text (cps : list Z) : string :=
  match cps with
  | [] => ""
  | cp :: more => utf8_encode cp ++ utf8_text more
  end.

(** A byte that is not printable and not newline, carriage return or tab. *)
Definition is_noise (c : ascii) : bool :=
  negb (File.isprint c)
  && negb (Ascii.eqb c LF || Ascii.eqb c CR || Ascii.eqb c TAB).

Definition noise_count (buf : string) : Z :=
  Z.of_nat (List.length (filter is_noise (list_ascii_of_string buf))).

Fixpoint replicate (n : nat) (c : ascii) : string :=
  match n with
  | O => ""
  | S k => String c (replicate k c)
  end.

(** The layout of a file record. *)
Definition rule (c : ascii) : string := replicate 80 c ++ nl.

Definition record_header (path : string) : string :=
  rule "-" ++ (path ++ ":" ++ nl) ++ rule "-".

Definition cannot_open_notice (path : string) : string :=
  "Cannot open file: " ++ path ++ nl ++ nl.

Definition binary_notice : string := "This is binary file" ++ nl ++ nl.

Definition root_banner (normalized_root : string) : string :=
  rule "=" ++ (normalized_root ++ "/" ++ nl) ++ rule "=".

(** A stretch of a run that neither writes to the sink nor calls the
    Walker. *)
Definition quiet (t : trace) : Prop := entered t = [] /\ sink t = "".

(** A directory that is listed but not descended into: every entry is
    looked up and every file that is not the output file gets its record;
    for a subdirectory nothing further happens. *)
Fixpoint files_only (dir_path : string) (entries : Traverse.dirstream)
    (output_file_path : string) : trace :=
  match entries with
  | Traverse.End_of_dir => []
  | Traverse.Readdir name st rest =>
      let others := files_only dir_path rest output_file_path in
      if Traverse.is_dot name then others
      else
        let path := Traverse.child_path dir_path name in
        match st with
        | Traverse.Stat_fails => Stat path false :: Perror "stat" :: others
        | Traverse.Is_dir _ => Stat path true :: others
        | Traverse.Not_dir f =>
            if String.eqb path output_file_path then Stat path true :: others
            else Stat path true :: Utils.print_file_content path f ++ others
        end
  end%list.

(** [p] holds of the [n] integers from [z] on; used to tabulate the
    floating-point comparison over the counts a sample can produce. *)
Fixpoint all_from (n : nat) (z : Z) (p : Z -> bool) : bool :=
  match n with
  | O => true
  | S k => p z && all_from k (z + 1) p
  end.

(** The values [opts.max_depth] can have when the Walker is called. *)
Definition depth_option (m : Z) : Prop := m = -1 \/ 0 <= m.

(** The notice written for a directory that [opendir] refuses. *)
Definition cannot_open_directory (dir_path : string) : string :=
  "Cannot open directory: " ++ dir_path ++ nl.

(** Samples and contents used as concrete inputs. *)
Definition byte (n : nat) : ascii := ascii_of_nat n.

Definition sample_nul : string := String NUL "".
Definition sample_nul_ff : string := String NUL (String (byte 255) "").
(* "a", U+00E9, U+3042, U+1F600 *)
Definition sample_utf8 : string :=
  String (byte 97)
    (String (byte 195) (String (byte 169)
      (String (byte 227) (String (byte 129) (String (byte 130)
        (String (byte 240) (String (byte 159) (String (byte 152)
          (String (byte 128) ""))))))))).
(* 0xFF a b c: one noise byte in four *)
Definition sample_quarter_noise : string := String (byte 255) "abc".
(* 0xFF 0xFF a: two noise bytes in three *)
Definition sample_more_noise : string := String (byte 255) (String (byte 255) "a").
(* 2048 letters, then bytes that differ *)
Definition long_text_a : string := replicate 2048 "a" ++ "tail".
Definition long_text_b : string := replicate 2048 "a" ++ String NUL (String (byte 255) "").

Definition stable_file (content : string) : file_host :=
  {| fopen_rb := Some content; malloc_ok := true; fopen_r := Some content |}.

Definition text_with_nul : string := "a" ++ String NUL ("b" ++ nl).
Definition hello : string := "hello" ++ nl.
Definition vanishing_file : file_host :=
  {| fopen_rb := Some hello; malloc_ok := true; fopen_r := None |}.
Definition unreadable_file : file_host :=
  {| fopen_rb := None; malloc_ok := true; fopen_r := None |}.

(* [vita -o out.txt .] started in /home/u, out.txt not existing.  The Walker
   skips "." and ".." by name, so the answers listed for them are never
   asked for. *)
Definition run_relative_root : host :=
  {| argc := 4;
     getopt_long := [Opt_o "out.txt"];
     operand := Some ".";
     stat_dir := Some true;
     realpath := None;
     getcwd := Some "/home/u";
     fopen_w := true;
     root :=
       Opened
         (Readdir "." (Is_dir Opendir_fails)
            (Readdir ".." (Is_dir Opendir_fails)
               (Readdir "out.txt" (Not_dir (stable_file "")) End_of_dir))) |}.

(* [vita -o /home/u/out.txt /home/u] started in /home/u, out.txt not existing *)
Definition run_absolute_root : host :=
  {| argc := 4;
     getopt_long := [Opt_o "/home/u/out.txt"];
     operand := Some "/home/u";
     stat_dir := Some true;
     realpath := None;
     getcwd := Some "/home/u";
     fopen_w := true;
     root := Opened (Readdir "out.txt" (Not_dir (stable_file "")) End_of_dir) |}.

Definition tree_depth_one : DIR :=
  Opened
    (Readdir "a.txt" (Not_dir (stable_file hello))
       (Readdir "sub"
          (Is_dir (Opened (Readdir "b.txt" (Not_dir (stable_file hello)) End_of_dir)))
          End_of_dir)).

Definition tree_with_failures : DIR :=
  Opened
    (Readdir "locked" (Is_dir Opendir_fails)
       (Readdir "gone.txt" (Not_dir unreadable_file)
          (Readdir "a.txt" (Not_dir (stable_file hello)) End_of_dir))).

Definition run_with_failures : host :=
  {| argc := 2;
     getopt_long := [];
     operand := Some "r";
     stat_dir := Some true;
     realpath := None;
     getcwd := Some "/home/u";
     fopen_w := true;
     root := tree_with_failures |}.

(** ** Further vocabulary *)

(** The byte classes of Shift-JIS, as ranges of byte values. *)
Definition sjis_single_byte (v : Z) : Prop := v <= 0x7F \/ 0xA1 <= v <= 0xDF.
Definition sjis_lead_byte (v : Z) : Prop := 0x81 <= v <= 0x9F \/ 0xE0 <= v <= 0xEF.
Definition sjis_trail_byte (v : Z) : Prop := 0x40 <= v <= 0x7E \/ 0x80 <= v <= 0xFC.

(** A sample made of single bytes and of complete lead/trail pairs. *)
Inductive sjis_wellformed : string -> Prop :=
| sjis_end : sjis_wellformed ""
| sjis_1 c r :
    sjis_single_byte (u8 c) -> sjis_wellformed r -> sjis_wellformed (String c r)
| sjis_2 c c2 r :
    sjis_lead_byte (u8 c) -> sjis_trail_byte (u8 c2) ->
    sjis_wellformed r -> sjis_wellformed (String c (String c2 r)).

(** The number of continuation bytes a UTF-8 lead byte announces. *)
Definition utf8_expected (c : ascii) : nat :=
  if utf8_lead2 c then 1 else if utf8_lead3 c then 2 else if utf8_lead4 c then 3 else 0.

(* UTF-16LE "hi" with byte order mark: FF FE 68 00 69 00 *)
Definition sample_utf16 : string :=
  String (byte 255) (String (byte 254)
    (String (byte 104) (String NUL (String (byte 105) (String NUL ""))))).

(** The last byte of a path is a separator. *)
Fixpoint ends_in_sep (path : string) : bool :=
  match path with
  | "" => false
  | String c "" => is_sep c
  | String _ r => ends_in_sep r
  end.

(** The bytes of a path. *)
Definition chars (s : string) : list ascii := list_ascii_of_string s.

(** One directory listing followed by another. *)
Fixpoint stream_app (s1 s2 : dirstream) : dirstream :=
  match s1 with
  | End_of_dir => s2
  | Readdir name st rest => Readdir name st (stream_app rest s2)
  end.

(** The number of [opendir] requests in a trace. *)
Fixpoint opendirs (t : trace) : nat :=
  match t with
  | [] => O
  | Opendir _ _ :: t' => S (opendirs t')
  | _ :: t' => opendirs t'
  end.

(** The subdirectories below a directory: the entries other than "." and
    ".." that [stat] reports as directories, and theirs. *)
Fixpoint subdirs (d : DIR) : nat :=
  match d with
  | Opendir_fails => O
  | Opened entries => subdirs_of entries
  end
with subdirs_of (entries : dirstream) : nat :=
  match entries with
  | End_of_dir => O
  | Readdir name st rest =>
      ((if is_dot name then O
        else match st with
             | Is_dir d' => S (subdirs d')
             | _ => O
             end) + subdirs_of rest)%nat
  end.

(** A depth limit that allows at least what [m] allows. *)
Definition at_least_as_deep (m m' : Z) : Prop := m' = -1 \/ (m <> -1 /\ m <= m').

(* a directory that holds a text file and the output file *)
Definition tree_with_output : DIR :=
  Opened
    (Readdir "a.txt" (Not_dir (stable_file hello))
       (Readdir "out.txt" (Not_dir (stable_file "")) End_of_dir)).

(** Options the loop of [main] takes in and goes on from. *)
Definition accepted_option (a : getopt_answer) : Prop :=
  match a with
  | Opt_o _ => True
  | Opt_d _ n => 0 <= n
  | _ => False
  end.

(** Options at which the loop of [main] returns [EXIT_FAILURE]. *)
Definition rejected_option (a : getopt_answer) : Prop :=
  match a with
  | Opt_d _ n => n < 0
  | Opt_unknown _ | Opt_other => True
  | _ => False
  end.

(** A stretch of a run without any request to the file system. *)
Definition host_untouched (t : trace) : Prop :=
  opened t = [] /\ opendirs t = O /\ quiet t
  /\ forall p ok, ~ In (Stat p ok) t.

(* [vita -d 3 -h -d -1]: no directory argument, a bad option after -h *)
Definition run_help_without_directory : host :=
  {| argc := 4;
     getopt_long := [Opt_d "3" 3; Opt_h; Opt_d "-1" (-1)];
     operand := None;
     stat_dir := None;
     realpath := None;
     getcwd := None;
     fopen_w := false;
     root := Opendir_fails |}.

(* [vita -o out.txt -d -2 .] *)
Definition run_negative_depth : host :=
  {| argc := 5;
     getopt_long := [Opt_o "out.txt"; Opt_d "-2" (-2)];
     operand := Some ".";
     stat_dir := Some true;
     realpath := None;
     getcwd := Some "/home/u";
     fopen_w := true;
     root := tree_depth_one |}.

(** The events of [main] before the banner: messages, the [stat] of the
    root and the opening of the output file. *)
Definition setup_event (e : event) : Prop :=
  match e with
  | Printf _ | Eprintf _ | Stat _ _ => True
  | Fopen _ mode _ => mode = "w"
  | _ => False
  end.

(** The name under which [main] keeps an [-o] argument. *)
Definition kept_name (answers : list getopt_answer) (name : string) : Prop :=
  exists optarg, In (Opt_o optarg) answers /\ name = take (MAX_OUTPUT_FILE - 1) optarg.

(* picks the trace of a finished run as the setup part *)
Ltac take_trace :=
  match goal with
  | |- exists pre, _ /\ _ /\ _ /\ ((snd (_, ?t) = pre /\ _) \/ _) => exists t
  end.

(* [vita -o out.txt nowhere], where nowhere does not exist *)
Definition run_missing_root : host :=
  {| argc := 4;
     getopt_long := [Opt_o "out.txt"];
     operand := Some "nowhere";
     stat_dir := None;
     realpath := None;
     getcwd := Some "/home/u";
     fopen_w := true;
     root := Opendir_fails |}.

(* bytes 00 01 02 *)
Definition sample_control : string :=
  String NUL (String (byte 1) (String (byte 2) "")).
(* half-width katakana, then a lead/trail pair: B1 B2 88 EA *)
Definition sample_shift_jis : string :=
  String (byte 177) (String (byte 178) (String (byte 136) (String (byte 234) ""))).

Ltac each_byte c := destruct c as [[] [] [] [] [] [] [] []].

(** ** Bytes *)

Lemma u8_range c : 0 <= u8 c < 256.
Proof. each_byte c; vm_compute; split; congruence. Qed.

Lemma u8_zero c : (u8 c =? 0) = Ascii.eqb c NUL.
Proof. each_byte c; reflexivity. Qed.

Lemma single_test c : (u8 c <=? 0x7F) = utf8_single c.
Proof. each_byte c; reflexivity. Qed.

Lemma lead2_test c : (Z.land (u8 c) 0xE0 =? 0xC0) = utf8_lead2 c.
Proof. each_byte c; reflexivity. Qed.

Lemma lead3_test c : (Z.land (u8 c) 0xF0 =? 0xE0) = utf8_lead3 c.
Proof. each_byte c; reflexivity. Qed.

Lemma lead4_test c : (Z.land (u8 c) 0xF8 =? 0xF0) = utf8_lead4 c.
Proof. each_byte c; reflexivity. Qed.

Lemma cont_test c : (Z.land (u8 c) 0xC0 =? 0x80) = utf8_cont c.
Proof. each_byte c; reflexivity. Qed.

(** The lead patterns exclude one another. *)
Lemma lead_patterns c :
  (utf8_lead2 c = true -> utf8_single c = false)
  /\ (utf8_lead3 c = true -> utf8_single c = false /\ utf8_lead2 c = false)
  /\ (utf8_lead4 c = true ->
      utf8_single c = false /\ utf8_lead2 c = false /\ utf8_lead3 c = false).
Proof. each_byte c; cbn; intuition congruence. Qed.

(** ** Streams *)

Lemma take_length n : forall s,
  String.length (take n s) = Nat.min n (String.length s).
Proof.
  induction n as [|k IH]; intros [|c r]; cbn; try reflexivity.
  now rewrite IH.
Qed.

Lemma take_all n : forall s, (String.length s <= n)%nat -> take n s = s.
Proof.
  induction n as [|k IH]; intros [|c r] H; cbn in *; try reflexivity; try lia.
  f_equal. apply IH. lia.
Qed.

Lemma append_nil_r s : s ++ "" = s.
Proof. induction s as [|c r IH]; cbn; [reflexivity | now rewrite IH]. Qed.

Lemma append_assoc (s t u : string) : (s ++ t) ++ u = s ++ (t ++ u).
Proof. induction s as [|c r IH]; cbn; [reflexivity | now rewrite IH]. Qed.

Lemma sink_app t1 t2 : sink (t1 ++ t2)%list = sink t1 ++ sink t2.
Proof.
  induction t1 as [|e t IH]; cbn; [reflexivity|].
  destruct e; cbn; try exact IH. now rewrite IH, append_assoc.
Qed.

Lemma entered_app t1 t2 : entered (t1 ++ t2)%list = (entered t1 ++ entered t2)%list.
Proof.
  induction t1 as [|e t IH]; cbn; [reflexivity|].
  destruct e; cbn; try exact IH. now rewrite IH.
Qed.

Lemma opened_app t1 t2 : opened (t1 ++ t2)%list = (opened t1 ++ opened t2)%list.
Proof.
  induction t1 as [|e t IH]; cbn; [reflexivity|].
  destruct e; cbn; try exact IH. now rewrite IH.
Qed.

(** ** The classifier *)

Section Classifier.

Lemma valid_utf8_of_wellformed buf :
  utf8_wellformed buf -> is_valid_utf8 buf = true.
Proof.
  induction 1 as [ | b0 r H0 _ IH | b0 b1 r H0 H1 _ IH
                 | b0 b1 b2 r H0 H1 H2 _ IH | b0 b1 b2 b3 r H0 H1 H2 H3 _ IH ];
    cbn [is_valid_utf8]; rewrite ?single_test, ?lead2_test, ?lead3_test,
      ?lead4_test, ?cont_test.
  - reflexivity.
  - now rewrite H0.
  - destruct (lead_patterns b0) as (P & _). now rewrite (P H0), H0, H1.
  - destruct (lead_patterns b0) as (_ & P & _). destruct (P H0) as [-> ->].
    now rewrite H0, H1, H2.
  - destruct (lead_patterns b0) as (_ & _ & P). destruct (P H0) as (-> & -> & ->).
    now rewrite H0, H1, H2, H3.
Qed.

Lemma zero_veto buf :
  In 0 (bytes_of buf) -> forall n, count_non_printable buf n = None.
Proof.
  unfold bytes_of.
  induction buf as [|c r IH]; cbn; intros H n; [contradiction|].
  destruct (u8 c =? 0) eqn:E; [reflexivity|].
  destruct H as [H|H]; [rewrite H in E; discriminate|].
  destruct (_ && _); now apply IH.
Qed.

Lemma count_is_noise_count buf :
  ~ In 0 (bytes_of buf) ->
  forall n, count_non_printable buf n = Some (n + noise_count buf).
Proof.
  unfold bytes_of, noise_count.
  induction buf as [|c r IH]; cbn [count_non_printable list_ascii_of_string map filter];
    intros H n.
  - cbn. f_equal. lia.
  - destruct (u8 c =? 0) eqn:E.
    + exfalso. apply H. left. now apply Z.eqb_eq.
    + assert (Hr : ~ In 0 (map u8 (list_ascii_of_string r))) by (intro; apply H; now right).
      replace (negb (isprint c) && negb (Ascii.eqb c LF) && negb (Ascii.eqb c CR)
               && negb (Ascii.eqb c TAB)) with (is_noise c)
        by (unfold is_noise; destruct (isprint c), (Ascii.eqb c LF),
              (Ascii.eqb c CR), (Ascii.eqb c TAB); reflexivity).
      destruct (is_noise c); rewrite (IH Hr); f_equal; cbn [List.length]; lia.
Qed.

Lemma noise_count_bounds buf : 0 <= noise_count buf <= strlen buf.
Proof.
  unfold noise_count, strlen.
  assert (H : (List.length (filter is_noise (list_ascii_of_string buf))
               <= String.length buf)%nat).
  { induction buf as [|c r IH]; cbn; [lia|]. destruct (is_noise c); cbn; lia. }
  lia.
Qed.

Lemma all_from_spec n : forall z p,
  all_from n z p = true -> forall x, z <= x < z + Z.of_nat n -> p x = true.
Proof.
  induction n as [|k IH]; intros z p H x Hx; [lia|].
  cbn [all_from] in H. apply andb_true_iff in H as [H0 H1].
  destruct (Z.eq_dec x z) as [->|Hne]; [exact H0|].
  apply (IH (z + 1) p H1). lia.
Qed.

Lemma ratio_table :
  all_from 2048 1 (fun len =>
    all_from 2049 0 (fun np =>
      Bool.eqb (ratio_exceeds_quarter np len) (len <? 4 * np))) = true.
Proof. vm_compute. reflexivity. Qed.

Lemma ratio_exact np len :
  0 <= np <= 2048 -> 1 <= len <= 2048 ->
  ratio_exceeds_quarter np len = (len <? 4 * np).
Proof.
  intros Hnp Hlen.
  pose proof (all_from_spec _ _ _ ratio_table len ltac:(cbn; lia)) as H.
  cbn beta in H.
  pose proof (all_from_spec _ _ _ H np ltac:(cbn; lia)) as H'.
  cbn beta in H'. now apply eqb_prop in H'.
Qed.

Lemma single_bytes j : 0 <= j < 128 -> utf8_single (byte_of_Z j) = true.
Proof.
  intro H. refine (all_from_spec 128 0 (fun j => utf8_single (byte_of_Z j)) _ j _);
    [vm_compute; reflexivity | cbn; lia].
Qed.

Lemma cont_bytes j : 0 <= j < 64 -> utf8_cont (byte_of_Z (0x80 + j)) = true.
Proof.
  intro H. refine (all_from_spec 64 0 (fun j => utf8_cont (byte_of_Z (0x80 + j))) _ j _);
    [vm_compute; reflexivity | cbn; lia].
Qed.

Lemma lead2_bytes j : 0 <= j < 32 -> utf8_lead2 (byte_of_Z (0xC0 + j)) = true.
Proof.
  intro H. refine (all_from_spec 32 0 (fun j => utf8_lead2 (byte_of_Z (0xC0 + j))) _ j _);
    [vm_compute; reflexivity | cbn; lia].
Qed.

Lemma lead3_bytes j : 0 <= j < 16 -> utf8_lead3 (byte_of_Z (0xE0 + j)) = true.
Proof.
  intro H. refine (all_from_spec 16 0 (fun j => utf8_lead3 (byte_of_Z (0xE0 + j))) _ j _);
    [vm_compute; reflexivity | cbn; lia].
Qed.

Lemma lead4_bytes j : 0 <= j < 8 -> utf8_lead4 (byte_of_Z (0xF0 + j)) = true.
Proof.
  intro H. refine (all_from_spec 8 0 (fun j => utf8_lead4 (byte_of_Z (0xF0 + j))) _ j _);
    [vm_compute; reflexivity | cbn; lia].
Qed.

Lemma six_bits x : 0 <= x mod 64 < 64.
Proof. apply Z.mod_pos_bound. lia. Qed.

Lemma encode_wellformed cp r :
  0 <= cp <= 0x10FFFF -> utf8_wellformed r -> utf8_wellformed (utf8_encode cp ++ r).
Proof.
  intros Hcp Hr. unfold utf8_encode.
  destruct (cp <? 0x80) eqn:E1; [apply Z.ltb_lt in E1 | apply Z.ltb_ge in E1].
  { apply utf8_1; [apply single_bytes; lia | exact Hr]. }
  destruct (cp <? 0x800) eqn:E2; [apply Z.ltb_lt in E2 | apply Z.ltb_ge in E2].
  { apply utf8_2; [apply lead2_bytes | apply cont_bytes, six_bits | exact Hr].
    split; [apply Z.div_pos; lia | apply Z.div_lt_upper_bound; lia]. }
  destruct (cp <? 0x10000) eqn:E3; [apply Z.ltb_lt in E3 | apply Z.ltb_ge in E3].
  { apply utf8_3;
      [apply lead3_bytes | apply cont_bytes, six_bits | apply cont_bytes, six_bits | exact Hr].
    split; [apply Z.div_pos; lia | apply Z.div_lt_upper_bound; lia]. }
  apply utf8_4;
    [apply lead4_bytes | apply cont_bytes, six_bits | apply cont_bytes, six_bits
     | apply cont_bytes, six_bits | exact Hr].
  split; [apply Z.div_pos; lia | apply Z.div_lt_upper_bound; lia].
Qed.

Lemma utf8_text_wellformed cps :
  Forall unicode_scalar cps -> utf8_wellformed (utf8_text cps).
Proof.
  induction 1 as [|cp more Hcp _ IH]; cbn [utf8_text]; [apply utf8_end|].
  apply encode_wellformed; [unfold unicode_scalar in Hcp; lia | exact IH].
Qed.

(** The validator accepts exactly the well-formed samples. *)
Lemma wellformed_of_valid_utf8 n : forall buf,
  (String.length buf <= n)%nat -> is_valid_utf8 buf = true -> utf8_wellformed buf.
Proof.
  induction n as [|k IH]; intros buf Hlen H.
  - destruct buf; [apply utf8_end | cbn in Hlen; lia].
  - destruct buf as [|b0 r0]; [apply utf8_end|].
    cbn [is_valid_utf8] in H.
    rewrite single_test, lead2_test, lead3_test, lead4_test in H.
    cbn [String.length] in Hlen.
    destruct (utf8_single b0) eqn:S0.
    { apply utf8_1; [exact S0 | apply IH; [lia | exact H]]. }
    destruct (utf8_lead2 b0) eqn:L2.
    { destruct r0 as [|b1 r1]; [discriminate|].
      rewrite cont_test in H. destruct (utf8_cont b1) eqn:C1; [|discriminate].
      cbn [String.length] in Hlen.
      apply utf8_2; [exact L2 | exact C1 | apply IH; [lia | exact H]]. }
    destruct (utf8_lead3 b0) eqn:L3.
    { destruct r0 as [|b1 [|b2 r2]]; try discriminate.
      rewrite !cont_test in H.
      destruct (utf8_cont b1) eqn:C1; [|discriminate].
      destruct (utf8_cont b2) eqn:C2; [|discriminate].
      cbn [String.length] in Hlen.
      apply utf8_3; [exact L3 | exact C1 | exact C2 | apply IH; [lia | exact H]]. }
    destruct (utf8_lead4 b0) eqn:L4; [|discriminate].
    destruct r0 as [|b1 [|b2 [|b3 r3]]]; try discriminate.
    rewrite !cont_test in H.
    destruct (utf8_cont b1) eqn:C1; [|discriminate].
    destruct (utf8_cont b2) eqn:C2; [|discriminate].
    destruct (utf8_cont b3) eqn:C3; [|discriminate].
    cbn [String.length] in Hlen.
    apply utf8_4; [exact L4 | exact C1 | exact C2 | exact C3 | apply IH; [lia | exact H]].
Qed.

Lemma valid_utf8_iff_wellformed buf :
  is_valid_utf8 buf = true <-> utf8_wellformed buf.
Proof.
  split; [apply (wellformed_of_valid_utf8 (String.length buf)); lia
         | apply valid_utf8_of_wellformed].
Qed.

(** Text encoded in UTF-8 passes the validation, whatever its code points. *)
Corollary unicode_text_is_valid cps :
  Forall unicode_scalar cps -> is_valid_utf8 (utf8_text cps) = true.
Proof. intro H. apply valid_utf8_of_wellformed, utf8_text_wellformed, H. Qed.

End Classifier.

Section ClassifierClaims.

(** C1, as stated, fails: the one-byte sample 0x00 contains a zero byte,
    passes the UTF-8 validation (0x00 is at most 0x7F) and is classified
    Text, not Binary. *)
Lemma C1_zero_byte_sample_is_text :
  In 0 (bytes_of sample_nul)
  /\ is_valid_utf8 sample_nul = true
  /\ classify sample_nul = Text
  /\ classify sample_nul <> Binary.
Proof.
  split; [left; reflexivity|].
  split; [reflexivity|].
  split; [reflexivity|].
  vm_compute. intro H. discriminate H.
Qed.

(** C1, amended: a sample that contains a zero byte is classified Binary
    exactly when it fails both the UTF-8 and the Shift-JIS validation; when
    one of them passes it is Text. *)
Theorem C1_zero_byte_veto_follows_validation buf :
  In 0 (bytes_of buf) ->
  classify buf =
    if is_valid_utf8 buf || is_valid_shift_jis buf then Text else Binary.
Proof.
  intro H. unfold classify.
  destruct (is_valid_utf8 buf); [reflexivity|].
  destruct (is_valid_shift_jis buf); [reflexivity|].
  now rewrite (zero_veto buf H).
Qed.

Lemma C1_zero_byte_veto_witness : classify sample_nul_ff = Binary.
Proof.
  exact (C1_zero_byte_veto_follows_validation sample_nul_ff (or_introl eq_refl)).
Defined.

(** C4: every sample that is valid UTF-8 (complete sequences of a lead byte
    and its continuation bytes) is classified Text. *)
Theorem C4_valid_utf8_is_text buf :
  utf8_wellformed buf -> classify buf = Text.
Proof.
  intro H. unfold classify. now rewrite (valid_utf8_of_wellformed buf H).
Qed.

Lemma C4_valid_utf8_witness : classify sample_utf8 = Text.
Proof.
  apply C4_valid_utf8_is_text. unfold sample_utf8.
  apply utf8_1; [reflexivity|].
  apply utf8_2; [reflexivity | reflexivity|].
  apply utf8_3; [reflexivity | reflexivity | reflexivity|].
  apply utf8_4; [reflexivity | reflexivity | reflexivity | reflexivity|].
  apply utf8_end.
Defined.

(** The threshold on any buffer of at most [BINARY_CHECK_BYTES] bytes. *)
Lemma quarter_threshold buf :
  buf <> "" ->
  (String.length buf <= BINARY_CHECK_BYTES)%nat ->
  is_valid_utf8 buf = false ->
  is_valid_shift_jis buf = false ->
  ~ In 0 (bytes_of buf) ->
  classify buf = if strlen buf <? 4 * noise_count buf then Binary else Text.
Proof.
  intros Hne Hlen Hu Hs Hz.
  pose proof (noise_count_bounds buf) as Hb.
  assert (Hpos : 1 <= strlen buf <= 2048).
  { unfold strlen, BINARY_CHECK_BYTES in *. destruct buf; [congruence|]. cbn in *. lia. }
  unfold classify. rewrite Hu, Hs, (count_is_noise_count buf Hz 0).
  cbn [Z.add]. rewrite ratio_exact by lia.
  replace (0 <? strlen buf) with true by (symmetry; apply Z.ltb_lt; lia).
  cbn [andb]. now destruct (strlen buf <? 4 * noise_count buf).
Qed.

(** C5: for the sample of any file, when it is non-empty (N bytes), fails
    both validations and has no zero byte, the classification is Binary if
    its noise bytes (not printable, not newline, carriage return or tab)
    number more than N/4, and Text if they number N/4 or fewer. *)
Theorem C5_quarter_threshold content :
  let buf := take BINARY_CHECK_BYTES content in
  let N := strlen buf in
  buf <> "" ->
  is_valid_utf8 buf = false ->
  is_valid_shift_jis buf = false ->
  ~ In 0 (bytes_of buf) ->
  (N < 4 * noise_count buf -> is_binary (Some content) true = Binary)
  /\ (4 * noise_count buf <= N -> is_binary (Some content) true = Text).
Proof.
  intros buf N Hne Hu Hs Hz.
  assert (Hlen : (String.length buf <= BINARY_CHECK_BYTES)%nat).
  { unfold buf. rewrite take_length. apply Nat.le_min_l. }
  unfold is_binary. cbn [negb]. fold buf.
  rewrite (quarter_threshold buf Hne Hlen Hu Hs Hz). fold N.
  split; intro H.
  - replace (N <? 4 * noise_count buf) with true
      by (symmetry; apply Z.ltb_lt; lia). reflexivity.
  - replace (N <? 4 * noise_count buf) with false
      by (symmetry; apply Z.ltb_ge; lia). reflexivity.
Qed.

Lemma C5_quarter_threshold_witness :
  is_binary (Some sample_quarter_noise) true = Text
  /\ is_binary (Some sample_more_noise) true = Binary.
Proof.
  split.
  - refine (proj2 (C5_quarter_threshold sample_quarter_noise _ _ _ _) _).
    + discriminate.
    + reflexivity.
    + reflexivity.
    + vm_compute. intros [H|[H|[H|[H|[]]]]]; discriminate H.
    + vm_compute. intro H. discriminate H.
  - refine (proj1 (C5_quarter_threshold sample_more_noise _ _ _ _) _).
    + discriminate.
    + reflexivity.
    + reflexivity.
    + vm_compute. intros [H|[H|[H|[]]]]; discriminate H.
    + reflexivity.
Defined.

(** C8: two files whose first 2048 bytes agree get the same classification;
    the result is [classify] of the sample, which holds the first
    min(filesize, 2048) bytes of the file: all of a file of at most 2048
    bytes. *)
Theorem C8_sample_prefix_decides content1 content2 malloc_ok :
  take BINARY_CHECK_BYTES content1 = take BINARY_CHECK_BYTES content2 ->
  is_binary (Some content1) malloc_ok = is_binary (Some content2) malloc_ok
  /\ is_binary (Some content1) true = classify (take BINARY_CHECK_BYTES content1)
  /\ String.length (take BINARY_CHECK_BYTES content1)
     = Nat.min 2048 (String.length content1)
  /\ ((String.length content1 <= 2048)%nat ->
      take BINARY_CHECK_BYTES content1 = content1).
Proof.
  intro H. unfold is_binary.
  split; [now rewrite H|].
  split; [reflexivity|].
  split; [apply take_length | apply take_all].
Qed.

Lemma C8_sample_prefix_witness :
  is_binary (Some long_text_a) true = is_binary (Some long_text_b) true.
Proof.
  apply (C8_sample_prefix_decides long_text_a long_text_b true).
  vm_compute. reflexivity.
Defined.

End ClassifierClaims.

(** ** Records *)

Section Records.

Lemma rule_dash_80 : rule_dash = rule "-".
Proof. reflexivity. Qed.

Lemma bytes_of_app s t : bytes_of (s ++ t) = (bytes_of s ++ bytes_of t)%list.
Proof.
  unfold bytes_of. induction s as [|c r IH]; cbn; [reflexivity | now rewrite IH].
Qed.

Lemma c_str_no_zero buffer : ~ In 0 (bytes_of buffer) -> c_str buffer = buffer.
Proof.
  unfold bytes_of. induction buffer as [|c r IH]; cbn; intro H; [reflexivity|].
  rewrite <- u8_zero. destruct (u8 c =? 0) eqn:E.
  - exfalso. apply H. left. now apply Z.eqb_eq.
  - f_equal. apply IH. intro; apply H; now right.
Qed.

Lemma read_line_split n : forall stream,
  fst (read_line n stream) ++ snd (read_line n stream) = stream.
Proof.
  induction n as [|k IH]; intros [|c r]; try reflexivity.
  cbn [read_line]. destruct (Ascii.eqb c LF); [reflexivity|].
  specialize (IH r). destruct (read_line k r) as [line rest]. cbn in *.
  now rewrite IH.
Qed.

(** A successful [fgets] into a buffer of two bytes or more stores the next
    byte of the stream. *)
Lemma fgets_some size c r :
  (2 <= size)%nat ->
  exists line rest,
    fgets size (String c r) = Some (String c line, rest) /\ r = line ++ rest.
Proof.
  intro H. unfold fgets.
  destruct size as [|[|n]]; try lia.
  replace (S (S n) - 1)%nat with (S n) by lia. cbn [read_line].
  destruct (Ascii.eqb c LF).
  - exists "", r. split; reflexivity.
  - pose proof (read_line_split n r) as E.
    destruct (read_line n r) as [line rest]. cbn in E.
    exists line, rest. split; [reflexivity | now symmetry].
Qed.

Lemma length_append (s t : string) :
  String.length (s ++ t) = (String.length s + String.length t)%nat.
Proof. induction s as [|c r IH]; cbn; [reflexivity | now rewrite IH]. Qed.

(** The echo loop copies a stream without zero bytes unchanged, for any
    number of iterations above the length of the stream. *)
Lemma echo_lines_copies fuel : forall stream,
  (String.length stream < fuel)%nat ->
  ~ In 0 (bytes_of stream) ->
  sink (echo_lines fuel stream) = stream.
Proof.
  induction fuel as [|k IH]; intros stream Hlen Hz; [lia|].
  destruct stream as [|c r]; [reflexivity|].
  cbn [echo_lines].
  destruct (fgets_some BUFFER_SIZE c r) as (line & rest & -> & Hr).
  { unfold BUFFER_SIZE. lia. }
  subst r. cbn [sink].
  change (String c (line ++ rest)) with (String c line ++ rest) in Hz.
  rewrite bytes_of_app in Hz.
  rewrite c_str_no_zero by (intro; apply Hz; apply in_or_app; now left).
  rewrite IH.
  - reflexivity.
  - cbn in Hlen. rewrite length_append in Hlen. lia.
  - intro; apply Hz; apply in_or_app; now right.
Qed.

(** Once the stream is exhausted, further iterations add nothing: the loop
    reaches end of file within [S (length stream)] iterations. *)
Lemma echo_lines_fuel fuel1 : forall fuel2 stream,
  (String.length stream < fuel1)%nat ->
  (String.length stream < fuel2)%nat ->
  echo_lines fuel1 stream = echo_lines fuel2 stream.
Proof.
  induction fuel1 as [|k IH]; intros fuel2 stream H1 H2; [lia|].
  destruct fuel2 as [|k2]; [lia|].
  destruct stream as [|c r]; [reflexivity|].
  cbn [echo_lines].
  destruct (fgets_some BUFFER_SIZE c r) as (line & rest & -> & Hr).
  { unfold BUFFER_SIZE. lia. }
  f_equal. subst r. cbn in H1, H2. rewrite length_append in *.
  apply IH; lia.
Qed.

End Records.

Section RecordClaims.

Lemma is_binary_codes fopen_rb malloc_ok :
  let bin := is_binary fopen_rb malloc_ok in
  bin = Unreadable \/ bin = Text \/ bin = Binary.
Proof.
  unfold is_binary, classify, Unreadable, Text, Binary.
  destruct fopen_rb as [content|]; [|now left].
  destruct malloc_ok; cbn [negb]; [|now left].
  destruct (is_valid_utf8 _); [now right; left|].
  destruct (is_valid_shift_jis _); [now right; left|].
  destruct (count_non_printable _ _); [|now right; right].
  destruct (_ && _); [now right; right | now right; left].
Qed.

Lemma entered_echo_lines fuel : forall stream, entered (echo_lines fuel stream) = [].
Proof.
  induction fuel as [|k IH]; intro stream; cbn; [reflexivity|].
  destruct (fgets _ _) as [[buffer rest]|]; cbn; [apply IH | reflexivity].
Qed.

Lemma opened_echo_lines fuel : forall stream, opened (echo_lines fuel stream) = [].
Proof.
  induction fuel as [|k IH]; intro stream; cbn; [reflexivity|].
  destruct (fgets _ _) as [[buffer rest]|]; cbn; [apply IH | reflexivity].
Qed.

Lemma entered_print_file_content path f : entered (print_file_content path f) = [].
Proof.
  unfold print_file_content. cbn [entered].
  destruct (_ =? -1); [reflexivity|]. destruct (_ =? 1); [reflexivity|].
  destruct (fopen_r f); [|reflexivity].
  cbn [entered]. rewrite entered_app, entered_echo_lines. reflexivity.
Qed.

(** The record of a file, by the outcome of [is_binary] and of the second
    [fopen]. *)
Lemma record_unreadable path f :
  is_binary (fopen_rb f) (malloc_ok f) = Unreadable ->
  sink (print_file_content path f) = record_header path ++ cannot_open_notice path.
Proof.
  intro H. unfold print_file_content. rewrite H. cbn [Z.eqb Unreadable Pos.eqb sink].
  unfold record_header. rewrite rule_dash_80, append_nil_r, !append_assoc. reflexivity.
Qed.

Lemma record_binary path f :
  is_binary (fopen_rb f) (malloc_ok f) = Binary ->
  sink (print_file_content path f) = record_header path ++ binary_notice.
Proof.
  intro H. unfold print_file_content. rewrite H. cbn [Z.eqb Binary Pos.eqb sink].
  unfold record_header. rewrite rule_dash_80, !append_assoc. reflexivity.
Qed.

Lemma record_text_unopened path f :
  is_binary (fopen_rb f) (malloc_ok f) = Text ->
  fopen_r f = None ->
  sink (print_file_content path f) = record_header path ++ cannot_open_notice path.
Proof.
  intros H Hr. unfold print_file_content. rewrite H, Hr. cbn [Z.eqb Text sink].
  unfold record_header. rewrite rule_dash_80, append_nil_r, !append_assoc. reflexivity.
Qed.

Lemma record_text path f content :
  is_binary (fopen_rb f) (malloc_ok f) = Text ->
  fopen_r f = Some content ->
  ~ In 0 (bytes_of content) ->
  sink (print_file_content path f) = record_header path ++ content ++ nl.
Proof.
  intros H Hr Hz. unfold print_file_content. rewrite H, Hr. cbn [Z.eqb Text sink].
  rewrite sink_app, echo_lines_copies by (try lia; assumption).
  cbn [sink]. unfold record_header.
  rewrite rule_dash_80, append_nil_r, !append_assoc. reflexivity.
Qed.

End RecordClaims.

(** ** The Walker *)

Section Walker.

Lemma opened_print_file_content path f :
  opened (print_file_content path f) =
    if is_binary (fopen_rb f) (malloc_ok f) =? Text
    then [(path, "rb"); (path, "r")]
    else [(path, "rb")].
Proof.
  unfold print_file_content.
  destruct (is_binary_codes (fopen_rb f) (malloc_ok f)) as [H|[H|H]];
    cbn zeta in H; rewrite H; cbn [Z.eqb Unreadable Text Binary Pos.eqb opened];
    try reflexivity.
  destruct (fopen_r f); cbn [opened]; [|reflexivity].
  rewrite opened_app, opened_echo_lines. reflexivity.
Qed.

Lemma readdir_loop_step dir_path name st rest depth max_depth ofp :
  readdir_loop dir_path (Readdir name st rest) depth max_depth ofp =
    let continue := readdir_loop dir_path rest depth max_depth ofp in
    if is_dot name then continue
    else
      let path := child_path dir_path name in
      match st with
      | Stat_fails => Stat path false :: Perror "stat" :: continue
      | Is_dir d' =>
          Stat path true ::
          (if (max_depth =? -1) || (depth <? max_depth) then
             traverse_directory path d' (depth + 1) max_depth ofp
           else []) ++ continue
      | Not_dir f =>
          Stat path true ::
          (if String.eqb path ofp then continue
           else print_file_content path f ++ continue)
      end%list.
Proof. reflexivity. Qed.

Lemma traverse_directory_step dir_path d depth max_depth ofp :
  traverse_directory dir_path d depth max_depth ofp =
    Enter dir_path depth ::
    if negb (max_depth =? -1) && (max_depth <? depth) then []
    else
      match d with
      | Opendir_fails =>
          [Opendir dir_path false;
           Out ("Cannot open directory: " ++ dir_path ++ nl)]
      | Opened entries =>
          Opendir dir_path true
          :: readdir_loop dir_path entries depth max_depth ofp
      end.
Proof. destruct d; reflexivity. Qed.

Lemma guard_passes depth m : depth <= m -> negb (m =? -1) && (m <? depth) = false.
Proof. intro H. replace (m <? depth) with false by (symmetry; apply Z.ltb_ge; lia). apply andb_false_r. Qed.

Lemma depth_bounded :
  (forall d dir_path depth m ofp q k,
      0 <= m -> depth <= m ->
      In (q, k) (entered (traverse_directory dir_path d depth m ofp)) ->
      depth <= k <= m)
  /\ (forall entries dir_path depth m ofp q k,
      0 <= m -> depth <= m ->
      In (q, k) (entered (readdir_loop dir_path entries depth m ofp)) ->
      depth < k <= m)
  /\ (forall st,
      match st with
      | Is_dir d =>
          forall dir_path depth m ofp q k,
            0 <= m -> depth <= m ->
            In (q, k) (entered (traverse_directory dir_path d depth m ofp)) ->
            depth <= k <= m
      | _ => True
      end).
Proof.
  apply host_tree_ind.
  - intros p depth m ofp q k Hm Hd. rewrite traverse_directory_step, guard_passes by lia.
    cbn. intros [H|[]]. inversion H; lia.
  - intros entries IH p depth m ofp q k Hm Hd.
    rewrite traverse_directory_step, guard_passes by lia.
    cbn [entered]. intros [H|H]; [inversion H; lia|].
    specialize (IH _ _ _ _ _ _ Hm Hd H). lia.
  - intros; contradiction.
  - intros name st IHst rest IHrest p depth m ofp q k Hm Hd.
    rewrite readdir_loop_step. cbn zeta.
    destruct (is_dot name); [now apply IHrest|].
    destruct st as [|f|d']; cbn [entered].
    + now apply IHrest.
    + destruct (String.eqb _ _); [now apply IHrest|].
      rewrite entered_app, entered_print_file_content. now apply IHrest.
    + rewrite entered_app. intro H. apply in_app_or in H as [H|H]; [|exact (IHrest _ _ _ _ _ _ Hm Hd H)].
      destruct ((m =? -1) || (depth <? m)) eqn:E; [|contradiction].
      apply orb_true_iff in E as [E|E]; [apply Z.eqb_eq in E; lia|].
      apply Z.ltb_lt in E.
      assert (Hd' : depth + 1 <= m) by lia.
      specialize (IHst _ _ _ _ _ _ Hm Hd' H). lia.
  - exact I.
  - intros; exact I.
  - intros d IH. exact IH.
Qed.

Lemma at_limit entries : forall dir_path m ofp,
  0 <= m -> readdir_loop dir_path entries m m ofp = files_only dir_path entries ofp.
Proof.
  induction entries as [|name st rest IH]; intros p m ofp Hm; [reflexivity|].
  rewrite readdir_loop_step. cbn [files_only]. cbn zeta.
  rewrite (IH p m ofp Hm).
  destruct (is_dot name); [reflexivity|].
  destruct st as [|f|d']; try reflexivity.
  - destruct (String.eqb _ _); reflexivity.
  - replace ((m =? -1) || (m <? m)) with false; [reflexivity|].
    symmetry. apply orb_false_iff. split; [apply Z.eqb_neq | apply Z.ltb_ge]; lia.
Qed.

Lemma entered_files_only entries : forall dir_path ofp,
  entered (files_only dir_path entries ofp) = [].
Proof.
  induction entries as [|name st rest IH]; intros p ofp; [reflexivity|].
  cbn [files_only]. cbn zeta.
  destruct (is_dot name); [apply IH|].
  destruct st as [|f|d']; cbn [entered]; try apply IH.
  destruct (String.eqb _ _); cbn [entered]; [apply IH|].
  rewrite entered_app, entered_print_file_content. apply IH.
Qed.

(** The Walker hands no path equal to [output_file_path] to [fopen]. *)
Lemma output_path_never_opened :
  (forall d dir_path depth m ofp q mode,
      In (q, mode) (opened (traverse_directory dir_path d depth m ofp)) -> q <> ofp)
  /\ (forall entries dir_path depth m ofp q mode,
      In (q, mode) (opened (readdir_loop dir_path entries depth m ofp)) -> q <> ofp)
  /\ (forall st,
      match st with
      | Is_dir d =>
          forall dir_path depth m ofp q mode,
            In (q, mode) (opened (traverse_directory dir_path d depth m ofp)) -> q <> ofp
      | _ => True
      end).
Proof.
  apply host_tree_ind.
  - intros p depth m ofp q mode. rewrite traverse_directory_step.
    destruct (_ && _); cbn; intros [].
  - intros entries IH p depth m ofp q mode. rewrite traverse_directory_step.
    destruct (_ && _); cbn [opened]; [intros []|]. apply IH.
  - intros; contradiction.
  - intros name st IHst rest IHrest p depth m ofp q mode.
    rewrite readdir_loop_step. cbn zeta.
    destruct (is_dot name); [apply IHrest|].
    destruct st as [|f|d']; cbn [opened].
    + apply IHrest.
    + destruct (String.eqb _ _) eqn:E; [apply IHrest|].
      rewrite opened_app, opened_print_file_content. intro H.
      apply in_app_or in H as [H|H]; [|exact (IHrest _ _ _ _ _ _ H)].
      apply String.eqb_neq in E.
      destruct (_ =? Text);
        [destruct H as [H|[H|[]]] | destruct H as [H|[]]];
        inversion H; subst; exact E.
    + rewrite opened_app. intro H.
      apply in_app_or in H as [H|H]; [|exact (IHrest _ _ _ _ _ _ H)].
      destruct (_ || _); [exact (IHst _ _ _ _ _ _ H) | contradiction].
  - exact I.
  - intros; exact I.
  - intros d IH. exact IH.
Qed.


End Walker.

(** ** Runs of main *)

Section Runs.

Lemma quiet_app t1 t2 : quiet t1 -> quiet t2 -> quiet (t1 ++ t2)%list.
Proof.
  intros [E1 S1] [E2 S2]. split.
  - now rewrite entered_app, E1, E2.
  - now rewrite sink_app, S1, S2.
Qed.

Lemma quiet_print_usage : quiet print_usage.
Proof. split; reflexivity. Qed.

Lemma option_loop_quiet answers : forall opts,
  depth_option (max_depth opts) ->
  quiet (fst (option_loop answers opts))
  /\ match snd (option_loop answers opts) with
     | inl code => code = EXIT_FAILURE \/ code = EXIT_SUCCESS
     | inr opts' => depth_option (max_depth opts')
     end.
Proof.
  induction answers as [|a more IH]; intros opts Hm; cbn [option_loop].
  - split; [split; reflexivity | exact Hm].
  - destruct a as [optarg|optarg n| |optopt|].
    + apply IH. exact Hm.
    + destruct (n <? 0) eqn:E.
      * split; [split; reflexivity | now left].
      * apply IH. right. cbn. apply Z.ltb_ge in E. exact E.
    + split; [apply quiet_print_usage | now right].
    + split; [destruct optopt; split; reflexivity | now left].
    + split; [apply quiet_print_usage | now left].
Qed.

Lemma open_output_quiet h opts :
  quiet (fst (open_output h opts))
  /\ match snd (open_output h opts) with
     | inl code => code = EXIT_FAILURE
     | inr _ => True
     end.
Proof.
  unfold open_output.
  destruct (String.eqb _ _); [repeat split|].
  destruct (realpath h) as [resolved|].
  - destruct (fopen_w h); repeat split.
  - destruct (getcwd h) as [cwd|]; [|repeat split].
    destruct (_ <=? _); [repeat split|].
    destruct (fopen_w h); repeat split.
Qed.

(** A run of [main] either ends before the Walker is called, having written
    nothing to the sink, or prints the root banner, runs the Walker from the
    normalized root at depth 0 and returns [EXIT_SUCCESS]. *)
Lemma main_outcomes h :
  (quiet (snd (main h))
   /\ (fst (main h) = EXIT_FAILURE \/ fst (main h) = EXIT_SUCCESS))
  \/ (exists pre dir_path m ofp,
        let normalized_root := normalize_path (snprintf MAX_PATH_LENGTH dir_path) in
        main h =
          (EXIT_SUCCESS,
           (pre ++ [Out rule_equals; Out (normalized_root ++ "/" ++ nl); Out rule_equals]
            ++ traverse_directory normalized_root (root h) 0 m ofp)%list)
        /\ quiet pre
        /\ operand h = Some dir_path
        /\ depth_option m).
Proof.
  unfold main.
  destruct (argc h <? 2); [left; split; [apply quiet_print_usage | now left]|].
  pose proof (option_loop_quiet (getopt_long h) {| output_file := ""; max_depth := -1 |}
                (or_introl eq_refl)) as [Q0 R0].
  destruct (option_loop _ _) as [t0 [code|opts]]; cbn [fst snd] in *.
  { left. split; [exact Q0 | exact R0]. }
  destruct (operand h) as [dir_path|].
  2:{ left. split; [|now left]. apply quiet_app; [exact Q0|]. split; reflexivity. }
  destruct (stat_dir h) as [[|]|].
  - pose proof (open_output_quiet h opts) as [Q1 R1].
    destruct (open_output h opts) as [t1 [code|ofp]]; cbn [fst snd] in *.
    + left. split; [|left; exact R1].
      apply quiet_app; [exact Q0|]. destruct Q1 as [E1 S1]. split; cbn; assumption.
    + right. exists (t0 ++ Stat dir_path true :: t1)%list, dir_path, (max_depth opts), ofp.
      cbn zeta. repeat split.
      * f_equal. rewrite <- app_assoc. reflexivity.
      * rewrite entered_app. destruct Q0 as [-> _], Q1 as [E1 _]. cbn. exact E1.
      * rewrite sink_app. destruct Q0 as [_ ->], Q1 as [_ S1]. cbn. exact S1.
      * exact R0.
  - left. split; [|now left]. apply quiet_app; [exact Q0|]. split; reflexivity.
  - left. split; [|now left]. apply quiet_app; [exact Q0|]. split; reflexivity.
Qed.

Lemma rule_equals_80 : rule_equals = rule "=".
Proof. reflexivity. Qed.

(* ---- concrete inputs (definitions part) ---- *)

(** C2, at two runs the claim covers, both started in /home/u where out.txt
    does not exist yet, so that [realpath] fails and [fopen] creates the
    file inside the root.  For [vita -o out.txt .] the output path resolves
    to /home/u/out.txt while the Walker builds ./out.txt; for
    [vita -o /home/u/out.txt /home/u] the fallback prefixes the working
    directory to an already absolute path.  In both the Walker's path is not
    the resolved text: it opens the output file for reading and emits a
    record for it. *)
Theorem C2_output_file_read_back :
  (snd (open_output run_relative_root {| output_file := "out.txt"; max_depth := -1 |})
     = inr "/home/u/out.txt"
   /\ fst (main run_relative_root) = EXIT_SUCCESS
   /\ opened (snd (main run_relative_root))
      = [("out.txt", "w"); ("./out.txt", "rb"); ("./out.txt", "r")]
   /\ sink (snd (main run_relative_root))
      = root_banner "." ++ record_header "./out.txt" ++ nl)
  /\ (snd (open_output run_absolute_root
             {| output_file := "/home/u/out.txt"; max_depth := -1 |})
        = inr "/home/u//home/u/out.txt"
      /\ fst (main run_absolute_root) = EXIT_SUCCESS
      /\ opened (snd (main run_absolute_root))
         = [("/home/u/out.txt", "w"); ("/home/u/out.txt", "rb"); ("/home/u/out.txt", "r")]
      /\ sink (snd (main run_absolute_root))
         = root_banner "/home/u" ++ record_header "/home/u/out.txt" ++ nl).
Proof. repeat split. Qed.

(** C3: with a depth limit m >= 0 the Walker, started at depth 0, is only
    ever called at depths 0..m; a directory opened at depth m is listed as
    [files_only] does it (every file gets its record, no subdirectory is
    entered), with no further call of the Walker. *)
Theorem C3_depth_limit m ofp :
  0 <= m ->
  (forall root d q k,
      In (q, k) (entered (traverse_directory root d 0 m ofp)) -> 0 <= k <= m)
  /\ (forall dir_path entries,
      traverse_directory dir_path (Opened entries) m m ofp
        = Enter dir_path m :: Opendir dir_path true :: files_only dir_path entries ofp
      /\ entered (files_only dir_path entries ofp) = []).
Proof.
  intro Hm. split.
  - intros root d q k H.
    exact (proj1 depth_bounded d root 0 m ofp q k Hm Hm H).
  - intros p entries. split; [|apply entered_files_only].
    rewrite traverse_directory_step, guard_passes by lia.
    now rewrite at_limit.
Qed.

Lemma C3_depth_limit_witness :
  entered (traverse_directory "r" tree_depth_one 0 0 "") = [("r", 0)]
  /\ sink (traverse_directory "r" tree_depth_one 0 0 "")
     = record_header "r/a.txt" ++ hello ++ nl.
Proof.
  unfold tree_depth_one.
  rewrite (proj1 (proj2 (C3_depth_limit 0 "" (Z.le_refl 0)) "r" _)).
  split; reflexivity.
Defined.

(** C6, as stated, fails at two files classified Text.  One can be opened
    for the sample but not for the content: its record ends in the "Cannot
    open file" notice.  The other holds "a", a zero byte, "b" and a newline
    (valid UTF-8): its record carries only "a" before the closing newline,
    since ["%s"] stops at the zero byte. *)
Lemma C6_text_records_without_content :
  (is_binary (fopen_rb vanishing_file) (malloc_ok vanishing_file) = Text
   /\ sink (print_file_content "f" vanishing_file)
      = record_header "f" ++ cannot_open_notice "f"
   /\ sink (print_file_content "f" vanishing_file)
      <> record_header "f" ++ hello ++ nl)
  /\ (is_binary (Some text_with_nul) true = Text
      /\ sink (print_file_content "f" (stable_file text_with_nul))
         = record_header "f" ++ "a" ++ nl
      /\ sink (print_file_content "f" (stable_file text_with_nul))
         <> record_header "f" ++ text_with_nul ++ nl).
Proof.
  split; (split; [reflexivity|]; split; [reflexivity|]);
    vm_compute; intro H; discriminate H.
Qed.

(** C6, amended: a record is a rule of 80 '-', the path with ':' and a
    newline, the same rule again, and then: the "Cannot open file" notice
    when the classification is Unreadable, or when it is Text and the second
    open fails; the "This is binary file" notice when it is Binary; the
    content followed by one newline when it is Text, the second open
    succeeds and the content has no zero byte.  A file the Walker processes
    gets this record for its normalized path, and a run that reaches the
    Walker starts the sink with the root banner between rules of 80 '='. *)
Theorem C6_record_layout path f :
  let bin := is_binary (fopen_rb f) (malloc_ok f) in
  let record := sink (print_file_content path f) in
  (bin = Unreadable -> record = record_header path ++ cannot_open_notice path)
  /\ (bin = Binary -> record = record_header path ++ binary_notice)
  /\ (bin = Text -> fopen_r f = None ->
      record = record_header path ++ cannot_open_notice path)
  /\ (bin = Text ->
      forall content, fopen_r f = Some content -> ~ In 0 (bytes_of content) ->
      record = record_header path ++ content ++ nl)
  /\ (forall dir_path name file rest depth m ofp,
      is_dot name = false ->
      let child := normalize_path (snprintf MAX_PATH_LENGTH (dir_path ++ "/" ++ name)) in
      child <> ofp ->
      readdir_loop dir_path (Readdir name (Not_dir file) rest) depth m ofp
      = (Stat child true :: print_file_content child file
         ++ readdir_loop dir_path rest depth m ofp)%list)
  /\ (forall h, entered (snd (main h)) <> [] ->
      exists dir_path rest,
        operand h = Some dir_path
        /\ sink (snd (main h))
           = root_banner (normalize_path (snprintf MAX_PATH_LENGTH dir_path)) ++ rest).
Proof.
  cbn zeta. repeat apply conj.
  - apply record_unreadable.
  - apply record_binary.
  - apply record_text_unopened.
  - intros H content Hr Hz. now apply record_text.
  - intros p name file rest depth m ofp Hdot Hne.
    rewrite readdir_loop_step. cbn zeta. rewrite Hdot.
    fold (child_path p name) in *.
    apply String.eqb_neq in Hne. now rewrite Hne.
  - intros h Hstart.
    destruct (main_outcomes h) as [[[E _] _]|(pre & dir_path & m & ofp & Hrun & [_ Hpre] & Hop & _)];
      [contradiction|].
    cbn zeta in Hrun. exists dir_path, (sink (traverse_directory
      (normalize_path (snprintf MAX_PATH_LENGTH dir_path)) (root h) 0 m ofp)).
    split; [exact Hop|]. rewrite Hrun. cbn [snd].
    rewrite !sink_app, Hpre. cbn [sink]. unfold root_banner.
    rewrite rule_equals_80, append_nil_r, !append_assoc. reflexivity.
Qed.

Lemma C6_record_layout_witness :
  sink (print_file_content "f" (stable_file hello)) = record_header "f" ++ hello ++ nl.
Proof.
  refine (proj1 (proj2 (proj2 (proj2 (C6_record_layout "f" (stable_file hello)))))
            _ hello _ _).
  - reflexivity.
  - reflexivity.
  - vm_compute. intros [H|[H|[H|[H|[H|[H|[]]]]]]]; discriminate H.
Defined.

(** C7: a subdirectory that cannot be opened leaves one notice in the sink
    and the loop goes on with the next entry; a file that cannot be opened
    leaves its record with the notice and the loop goes on; a directory
    that cannot be opened yields exactly its notice; and a run in which the
    Walker is called returns [EXIT_SUCCESS], while every other return code
    is [EXIT_FAILURE] from a run that never called the Walker and wrote
    nothing to the sink. *)
Theorem C7_soft_errors_are_inline :
  (forall dir_path name rest depth m ofp,
      is_dot name = false -> m = -1 \/ depth < m ->
      readdir_loop dir_path (Readdir name (Is_dir Opendir_fails) rest) depth m ofp
      = let path := child_path dir_path name in
        Stat path true :: Enter path (depth + 1) :: Opendir path false
        :: Out (cannot_open_directory path)
        :: readdir_loop dir_path rest depth m ofp)
  /\ (forall dir_path name f rest depth m ofp,
      is_dot name = false -> child_path dir_path name <> ofp ->
      fopen_rb f = None ->
      let path := child_path dir_path name in
      let t := readdir_loop dir_path (Readdir name (Not_dir f) rest) depth m ofp in
      t = (Stat path true :: print_file_content path f
           ++ readdir_loop dir_path rest depth m ofp)%list
      /\ sink t = (record_header path ++ cannot_open_notice path)
                  ++ sink (readdir_loop dir_path rest depth m ofp))
  /\ (forall dir_path depth m ofp,
      m = -1 \/ depth <= m ->
      sink (traverse_directory dir_path Opendir_fails depth m ofp)
      = cannot_open_directory dir_path)
  /\ (forall h,
      (entered (snd (main h)) <> [] -> fst (main h) = EXIT_SUCCESS)
      /\ (fst (main h) <> EXIT_SUCCESS ->
          fst (main h) = EXIT_FAILURE /\ quiet (snd (main h)))).
Proof.
  repeat apply conj.
  - intros p name rest depth m ofp Hdot Hm.
    rewrite readdir_loop_step. cbn zeta. rewrite Hdot.
    replace ((m =? -1) || (depth <? m)) with true.
    2:{ symmetry. apply orb_true_iff.
        destruct Hm as [->|Hm]; [now left | right; now apply Z.ltb_lt]. }
    rewrite traverse_directory_step.
    replace (negb (m =? -1) && (m <? depth + 1)) with false; [reflexivity|].
    symmetry. destruct Hm as [->|Hm]; [reflexivity|].
    replace (m <? depth + 1) with false by (symmetry; apply Z.ltb_ge; lia).
    apply andb_false_r.
  - intros p name f rest depth m ofp Hdot Hne Hf. cbn zeta.
    rewrite readdir_loop_step. cbn zeta. rewrite Hdot.
    apply String.eqb_neq in Hne. rewrite Hne. split; [reflexivity|].
    cbn [sink]. rewrite sink_app. f_equal.
    apply record_unreadable. unfold is_binary. now rewrite Hf.
  - intros p depth m ofp Hm. rewrite traverse_directory_step.
    replace (negb (m =? -1) && (m <? depth)) with false.
    + cbn [sink]. apply append_nil_r.
    + symmetry. destruct Hm as [->|Hm]; [reflexivity|].
      replace (m <? depth) with false by (symmetry; apply Z.ltb_ge; lia).
      apply andb_false_r.
  - intro h. split; [intro Hstart | intro H; split].
    + destruct (main_outcomes h) as [[[E _] _]|(pre & dir_path & m & ofp & Hrun & _)];
        [contradiction | now rewrite Hrun].
    + destruct (main_outcomes h) as [[Q [C|C]]|(pre & dir_path & m & ofp & Hrun & _)];
        [exact C | contradiction | rewrite Hrun in H; now elim H].
    + destruct (main_outcomes h) as [[Q _]|(pre & dir_path & m & ofp & Hrun & _)];
        [exact Q | rewrite Hrun in H; now elim H].
Qed.

Lemma C7_soft_errors_witness :
  fst (main run_with_failures) = EXIT_SUCCESS
  /\ sink (snd (main run_with_failures))
     = root_banner "r"
       ++ cannot_open_directory "r/locked"
       ++ (record_header "r/gone.txt" ++ cannot_open_notice "r/gone.txt")
       ++ (record_header "r/a.txt" ++ hello ++ nl).
Proof.
  split.
  - apply (proj1 (proj2 (proj2 (proj2 C7_soft_errors_are_inline)) run_with_failures)).
    vm_compute. intro H. discriminate H.
  - reflexivity.
Defined.

(** C9: an entry whose [stat] fails adds nothing to the sink; the diagnostic
    goes through [perror], and the loop continues with the remaining
    entries of the directory. *)
Theorem C9_stat_failure_skips_entry dir_path name rest depth m ofp :
  let continue := readdir_loop dir_path rest depth m ofp in
  let t := readdir_loop dir_path (Readdir name Stat_fails rest) depth m ofp in
  sink t = sink continue
  /\ t = if is_dot name then continue
         else Stat (child_path dir_path name) false :: Perror "stat" :: continue.
Proof.
  cbn zeta. rewrite readdir_loop_step. cbn zeta.
  destruct (is_dot name); split; reflexivity.
Qed.

(** C10, as stated, fails: the record of a Binary file opens the file once
    only, for the sample. *)
Lemma C10_binary_record_opens_once :
  is_binary (Some sample_nul_ff) true = Binary
  /\ opened (print_file_content "f" (stable_file sample_nul_ff)) = [("f", "rb")].
Proof. split; reflexivity. Qed.

(** C10, amended: the record of a file classified Text opens the file twice
    (mode "rb" for the sample, mode "r" for the content), every other record
    opens it once; when the file is Text and the second open fails, the
    header is followed by the "Cannot open file" notice and a blank line. *)
Theorem C10_second_open path f :
  let bin := is_binary (fopen_rb f) (malloc_ok f) in
  (bin = Text -> opened (print_file_content path f) = [(path, "rb"); (path, "r")])
  /\ (bin <> Text -> opened (print_file_content path f) = [(path, "rb")])
  /\ (bin = Text -> fopen_r f = None ->
      sink (print_file_content path f)
      = record_header path ++ "Cannot open file: " ++ path ++ nl ++ nl).
Proof.
  cbn zeta. repeat apply conj.
  - intro H. now rewrite opened_print_file_content, H.
  - intro H. rewrite opened_print_file_content.
    destruct (_ =? Text) eqn:E; [apply Z.eqb_eq in E; contradiction | reflexivity].
  - apply record_text_unopened.
Qed.

Lemma C10_second_open_witness :
  opened (print_file_content "f" vanishing_file) = [("f", "rb"); ("f", "r")]
  /\ sink (print_file_content "f" vanishing_file)
     = record_header "f" ++ "Cannot open file: f" ++ nl ++ nl.
Proof.
  split.
  - apply (proj1 (C10_second_open "f" vanishing_file)). reflexivity.
  - apply (proj2 (proj2 (C10_second_open "f" vanishing_file))); reflexivity.
Defined.

End Runs.

(** ** More on the classifier *)

Section ClassifierMore.

Lemma seven_bit_valid_utf8 buf :
  Forall (fun v => v <= 0x7F) (bytes_of buf) -> is_valid_utf8 buf = true.
Proof.
  unfold bytes_of. induction buf as [|c r IH]; cbn; intro H; [reflexivity|].
  inversion H as [|v l Hc Hr]; subst.
  replace (u8 c <=? 127) with true by (symmetry; apply Z.leb_le; exact Hc).
  apply IH, Hr.
Qed.

Lemma seven_bit_valid_shift_jis buf :
  Forall (fun v => v <= 0x7F) (bytes_of buf) -> is_valid_shift_jis buf = true.
Proof.
  unfold bytes_of. induction buf as [|c r IH]; cbn; intro H; [reflexivity|].
  inversion H as [|v l Hc Hr]; subst.
  replace (u8 c <=? 127) with true by (symmetry; apply Z.leb_le; exact Hc).
  cbn [orb]. apply IH, Hr.
Qed.

(** X1: a sample whose bytes are all at most 0x7F (control characters and
    zero bytes included, the empty sample too) passes both validations and
    is classified Text. *)
Theorem seven_bit_is_text buf :
  Forall (fun v => v <= 0x7F) (bytes_of buf) ->
  is_valid_utf8 buf = true
  /\ is_valid_shift_jis buf = true
  /\ classify buf = Text.
Proof.
  intro H. split; [now apply seven_bit_valid_utf8|].
  split; [now apply seven_bit_valid_shift_jis|].
  unfold classify. now rewrite seven_bit_valid_utf8.
Qed.

Lemma seven_bit_is_text_witness : classify sample_control = Text.
Proof.
  refine (proj2 (proj2 (seven_bit_is_text sample_control _))).
  unfold bytes_of, sample_control. cbn [list_ascii_of_string map].
  repeat (apply Forall_cons; [vm_compute; intro H; discriminate H|]).
  apply Forall_nil.
Defined.

Lemma sjis_single_test c :
  (u8 c <=? 0x7F) || ((0xA1 <=? u8 c) && (u8 c <=? 0xDF)) = true <-> sjis_single_byte (u8 c).
Proof.
  unfold sjis_single_byte.
  rewrite orb_true_iff, andb_true_iff, !Z.leb_le. tauto.
Qed.

Lemma sjis_lead_test c :
  ((0x81 <=? u8 c) && (u8 c <=? 0x9F)) || ((0xE0 <=? u8 c) && (u8 c <=? 0xEF)) = true
  <-> sjis_lead_byte (u8 c).
Proof.
  unfold sjis_lead_byte.
  rewrite orb_true_iff, !andb_true_iff, !Z.leb_le. tauto.
Qed.

Lemma sjis_trail_test c :
  ((0x40 <=? u8 c) && (u8 c <=? 0x7E)) || ((0x80 <=? u8 c) && (u8 c <=? 0xFC)) = true
  <-> sjis_trail_byte (u8 c).
Proof.
  unfold sjis_trail_byte.
  rewrite orb_true_iff, !andb_true_iff, !Z.leb_le. tauto.
Qed.

Lemma sjis_classes_disjoint v : sjis_single_byte v -> sjis_lead_byte v -> False.
Proof. unfold sjis_single_byte, sjis_lead_byte. lia. Qed.

Lemma valid_shift_jis_of_wellformed buf :
  sjis_wellformed buf -> is_valid_shift_jis buf = true.
Proof.
  induction 1 as [ | c r Hc _ IH | c c2 r Hc Hc2 _ IH ]; cbn [is_valid_shift_jis].
  - reflexivity.
  - apply sjis_single_test in Hc. now rewrite Hc.
  - destruct ((u8 c <=? 0x7F) || ((0xA1 <=? u8 c) && (u8 c <=? 0xDF))) eqn:E.
    + apply sjis_single_test in E. destruct (sjis_classes_disjoint _ E Hc).
    + apply sjis_lead_test in Hc. rewrite Hc.
      apply sjis_trail_test in Hc2. now rewrite Hc2.
Qed.

Lemma wellformed_of_valid_shift_jis n : forall buf,
  (String.length buf <= n)%nat -> is_valid_shift_jis buf = true -> sjis_wellformed buf.
Proof.
  induction n as [|k IH]; intros buf Hlen H.
  - destruct buf; [apply sjis_end | cbn in Hlen; lia].
  - destruct buf as [|c r0]; [apply sjis_end|].
    cbn [is_valid_shift_jis] in H. cbn [String.length] in Hlen.
    destruct ((u8 c <=? 0x7F) || ((0xA1 <=? u8 c) && (u8 c <=? 0xDF))) eqn:E1.
    { apply sjis_1; [now apply sjis_single_test | apply IH; [lia | exact H]]. }
    destruct (((0x81 <=? u8 c) && (u8 c <=? 0x9F)) || ((0xE0 <=? u8 c) && (u8 c <=? 0xEF))) eqn:E2;
      [|discriminate].
    destruct r0 as [|c2 r1]; [discriminate|].
    destruct (((0x40 <=? u8 c2) && (u8 c2 <=? 0x7E)) || ((0x80 <=? u8 c2) && (u8 c2 <=? 0xFC))) eqn:E3;
      [|discriminate].
    cbn [negb] in H. cbn [String.length] in Hlen.
    apply sjis_2; [now apply sjis_lead_test | now apply sjis_trail_test | apply IH; [lia | exact H]].
Qed.

(** X2: [is_valid_shift_jis] accepts exactly the samples made of single
    bytes (0x00-0x7F, 0xA1-0xDF) and of complete pairs of a lead byte
    (0x81-0x9F, 0xE0-0xEF) and a trail byte (0x40-0x7E, 0x80-0xFC); such a
    sample is classified Text whatever the UTF-8 validation says. *)
Theorem shift_jis_is_text buf :
  (is_valid_shift_jis buf = true <-> sjis_wellformed buf)
  /\ (sjis_wellformed buf -> classify buf = Text).
Proof.
  split.
  - split; [apply (wellformed_of_valid_shift_jis (String.length buf)); lia
           | apply valid_shift_jis_of_wellformed].
  - intro H. unfold classify. rewrite (valid_shift_jis_of_wellformed buf H).
    now destruct (is_valid_utf8 buf).
Qed.

Lemma shift_jis_is_text_witness :
  is_valid_utf8 sample_shift_jis = false /\ classify sample_shift_jis = Text.
Proof.
  split; [reflexivity|].
  apply (proj2 (shift_jis_is_text sample_shift_jis)).
  apply sjis_1; [right; split; vm_compute; intro H; discriminate H|].
  apply sjis_1; [right; split; vm_compute; intro H; discriminate H|].
  apply sjis_2; [left; split; vm_compute; intro H; discriminate H
                | right; split; vm_compute; intro H; discriminate H|].
  apply sjis_end.
Defined.

(** X3: [is_valid_utf8] accepts exactly the samples in which every byte
    0xxxxxxx stands alone and every lead byte 110xxxxx, 1110xxxx, 11110xxx
    is followed by one, two, three bytes 10xxxxxx; the value encoded is not
    looked at. *)
Theorem utf8_validator_exact buf :
  is_valid_utf8 buf = true <-> utf8_wellformed buf.
Proof.
  split.
  - apply (wellformed_of_valid_utf8 (String.length buf)). lia.
  - apply valid_utf8_of_wellformed.
Qed.

(** X4: the UTF-8 encoding of any sequence of Unicode scalar values passes
    the UTF-8 validation and is classified Text. *)
Theorem unicode_text_is_text cps :
  Forall unicode_scalar cps ->
  is_valid_utf8 (utf8_text cps) = true /\ classify (utf8_text cps) = Text.
Proof.
  intro H.
  assert (V : is_valid_utf8 (utf8_text cps) = true)
    by apply valid_utf8_of_wellformed, utf8_text_wellformed, H.
  split; [exact V|]. unfold classify. now rewrite V.
Qed.

Lemma unicode_text_is_text_witness :
  is_valid_utf8 sample_utf8 = true /\ classify sample_utf8 = Text.
Proof.
  apply (unicode_text_is_text [97; 233; 12354; 128512]).
  repeat (apply Forall_cons; [unfold unicode_scalar; lia|]). apply Forall_nil.
Defined.

Lemma valid_utf8_app a b :
  utf8_wellformed a -> is_valid_utf8 (a ++ b) = is_valid_utf8 b.
Proof.
  induction 1 as [ | b0 r H0 _ IH | b0 b1 r H0 H1 _ IH
                 | b0 b1 b2 r H0 H1 H2 _ IH | b0 b1 b2 b3 r H0 H1 H2 H3 _ IH ];
    cbn [append]; [reflexivity|..];
    cbn [is_valid_utf8]; rewrite ?single_test, ?lead2_test, ?lead3_test,
      ?lead4_test, ?cont_test.
  - now rewrite H0.
  - destruct (lead_patterns b0) as (P & _). now rewrite (P H0), H0, H1.
  - destruct (lead_patterns b0) as (_ & P & _). destruct (P H0) as [-> ->].
    now rewrite H0, H1, H2.
  - destruct (lead_patterns b0) as (_ & _ & P). destruct (P H0) as (-> & -> & ->).
    now rewrite H0, H1, H2, H3.
Qed.

Lemma valid_shift_jis_app a b :
  sjis_wellformed a -> is_valid_shift_jis (a ++ b) = is_valid_shift_jis b.
Proof.
  induction 1 as [ | c r Hc _ IH | c c2 r Hc Hc2 _ IH ]; cbn [append];
    [reflexivity|..]; cbn [is_valid_shift_jis].
  - apply sjis_single_test in Hc. now rewrite Hc.
  - destruct ((u8 c <=? 0x7F) || ((0xA1 <=? u8 c) && (u8 c <=? 0xDF))) eqn:E.
    + apply sjis_single_test in E. destruct (sjis_classes_disjoint _ E Hc).
    + apply sjis_lead_test in Hc. rewrite Hc.
      apply sjis_trail_test in Hc2. now rewrite Hc2.
Qed.

(** X6: behind a prefix that a validator accepts, the validator's answer
    for the whole sample is its answer for the rest. *)
Theorem validators_compose a b :
  (is_valid_utf8 a = true -> is_valid_utf8 (a ++ b) = is_valid_utf8 b)
  /\ (is_valid_shift_jis a = true ->
      is_valid_shift_jis (a ++ b) = is_valid_shift_jis b).
Proof.
  split; intro H.
  - apply valid_utf8_app. apply (wellformed_of_valid_utf8 (String.length a)); [lia | exact H].
  - apply valid_shift_jis_app.
    apply (wellformed_of_valid_shift_jis (String.length a)); [lia | exact H].
Qed.

Lemma validators_compose_witness :
  is_valid_utf8 (sample_utf8 ++ sample_nul_ff) = false
  /\ is_valid_shift_jis ("abc" ++ "de") = true.
Proof.
  split.
  - rewrite (proj1 (validators_compose sample_utf8 sample_nul_ff)); reflexivity.
  - rewrite (proj2 (validators_compose "abc" "de")); reflexivity.
Defined.

Lemma truncated_sequence_invalid b0 tail :
  (String.length tail < utf8_expected b0)%nat ->
  is_valid_utf8 (String b0 tail) = false.
Proof.
  unfold utf8_expected. intro H. cbn [is_valid_utf8].
  rewrite single_test, lead2_test, lead3_test, lead4_test.
  destruct (utf8_lead2 b0) eqn:L2.
  { destruct (lead_patterns b0) as (P & _). rewrite (P L2).
    destruct tail; [reflexivity | cbn in H; lia]. }
  destruct (utf8_lead3 b0) eqn:L3.
  { destruct (lead_patterns b0) as (_ & P & _). destruct (P L3) as [-> _].
    destruct tail as [|b1 [|b2 r]]; try reflexivity. cbn in H; lia. }
  destruct (utf8_lead4 b0) eqn:L4; [|cbn in H; lia].
  destruct (lead_patterns b0) as (_ & _ & P). destruct (P L4) as (-> & _).
  destruct tail as [|b1 [|b2 [|b3 r]]]; try reflexivity. cbn in H; lia.
Qed.

Lemma encode_shape cp :
  0x80 <= cp <= 0x10FFFF ->
  exists lead conts,
    utf8_encode cp = String lead conts
    /\ utf8_expected lead = String.length conts.
Proof.
  intro Hcp. unfold utf8_encode.
  replace (cp <? 0x80) with false by (symmetry; apply Z.ltb_ge; lia).
  destruct (cp <? 0x800) eqn:E2; [apply Z.ltb_lt in E2 | apply Z.ltb_ge in E2].
  { eexists _, _. split; [reflexivity|]. unfold utf8_expected.
    rewrite lead2_bytes; [reflexivity|].
    split; [apply Z.div_pos; lia | apply Z.div_lt_upper_bound; lia]. }
  destruct (cp <? 0x10000) eqn:E3; [apply Z.ltb_lt in E3 | apply Z.ltb_ge in E3].
  { eexists _, _. split; [reflexivity|]. unfold utf8_expected.
    assert (L : utf8_lead3 (byte_of_Z (0xE0 + cp / 4096)) = true).
    { apply lead3_bytes. split; [apply Z.div_pos; lia | apply Z.div_lt_upper_bound; lia]. }
    destruct (lead_patterns (byte_of_Z (0xE0 + cp / 4096))) as (_ & P & _).
    destruct (P L) as [_ ->]. rewrite L. reflexivity. }
  eexists _, _. split; [reflexivity|]. unfold utf8_expected.
  assert (L : utf8_lead4 (byte_of_Z (0xF0 + cp / 262144)) = true).
  { apply lead4_bytes. split; [apply Z.div_pos; lia | apply Z.div_lt_upper_bound; lia]. }
  destruct (lead_patterns (byte_of_Z (0xF0 + cp / 262144))) as (_ & _ & P).
  destruct (P L) as (_ & -> & ->). rewrite L. reflexivity.
Qed.

Lemma encode_single cp : 0 <= cp < 0x80 -> String.length (utf8_encode cp) = 1%nat.
Proof.
  intro H. unfold utf8_encode.
  replace (cp <? 0x80) with true by (symmetry; apply Z.ltb_lt; lia). reflexivity.
Qed.

(** X5: UTF-8 text that ends inside the encoding of a character (as the
    sample of a longer file can) fails the UTF-8 validation. *)
Theorem cut_character_invalid cps cp k :
  Forall unicode_scalar cps ->
  unicode_scalar cp ->
  (0 < k < String.length (utf8_encode cp))%nat ->
  is_valid_utf8 (utf8_text cps ++ take k (utf8_encode cp)) = false.
Proof.
  intros Hcps Hcp Hk.
  rewrite valid_utf8_app by (now apply utf8_text_wellformed).
  destruct (Z_lt_ge_dec cp 0x80) as [Hlow|Hhigh].
  { rewrite encode_single in Hk by (unfold unicode_scalar in Hcp; lia). lia. }
  destruct (encode_shape cp) as (lead & conts & E & Hn).
  { unfold unicode_scalar in Hcp. lia. }
  rewrite E in *. destruct k as [|k']; [lia|]. cbn [take].
  apply truncated_sequence_invalid. rewrite Hn, take_length.
  cbn [String.length] in Hk. lia.
Qed.

Lemma cut_character_invalid_witness :
  is_valid_utf8 (utf8_text [97; 12354] ++ take 2 (utf8_encode 12354)) = false.
Proof.
  apply (cut_character_invalid [97; 12354] 12354 2).
  - repeat constructor; unfold unicode_scalar; lia.
  - unfold unicode_scalar; lia.
  - cbn. lia.
Defined.

Lemma utf8_class_below_f8 c :
  utf8_single c || utf8_lead2 c || utf8_lead3 c || utf8_lead4 c || utf8_cont c = true ->
  u8 c < 0xF8.
Proof. each_byte c; intro H; try discriminate H; reflexivity. Qed.

Lemma wellformed_utf8_bytes buf :
  utf8_wellformed buf -> Forall (fun v => v < 0xF8) (bytes_of buf).
Proof.
  unfold bytes_of.
  induction 1 as [ | b0 r H0 _ IH | b0 b1 r H0 H1 _ IH
                 | b0 b1 b2 r H0 H1 H2 _ IH | b0 b1 b2 b3 r H0 H1 H2 H3 _ IH ];
    cbn [list_ascii_of_string map];
    repeat (apply Forall_cons;
            [apply utf8_class_below_f8;
             rewrite ?H0, ?H1, ?H2, ?H3, ?orb_true_r; reflexivity|]);
    try exact IH. apply Forall_nil.
Qed.

Lemma wellformed_sjis_bytes buf :
  sjis_wellformed buf -> Forall (fun v => v <= 0xFC) (bytes_of buf).
Proof.
  unfold bytes_of.
  induction 1 as [ | c r Hc _ IH | c c2 r Hc Hc2 _ IH ]; cbn [list_ascii_of_string map].
  - apply Forall_nil.
  - apply Forall_cons; [unfold sjis_single_byte in Hc; lia | exact IH].
  - apply Forall_cons; [unfold sjis_lead_byte in Hc; lia|].
    apply Forall_cons; [unfold sjis_trail_byte in Hc2; lia | exact IH].
Qed.

(** X7: a sample holding a byte 0xFD, 0xFE or 0xFF fails both validations,
    so that a zero byte in it makes it Binary. *)
Theorem high_bytes_fail_validation buf v :
  In v (bytes_of buf) -> 0xFD <= v ->
  is_valid_utf8 buf = false
  /\ is_valid_shift_jis buf = false
  /\ (In 0 (bytes_of buf) -> classify buf = Binary).
Proof.
  intros Hin Hv.
  assert (Hu : is_valid_utf8 buf = false).
  { destruct (is_valid_utf8 buf) eqn:E; [|reflexivity].
    apply (wellformed_of_valid_utf8 (String.length buf)) in E; [|lia].
    apply wellformed_utf8_bytes in E. rewrite Forall_forall in E.
    specialize (E v Hin). cbn beta in E. lia. }
  assert (Hs : is_valid_shift_jis buf = false).
  { destruct (is_valid_shift_jis buf) eqn:E; [|reflexivity].
    apply (wellformed_of_valid_shift_jis (String.length buf)) in E; [|lia].
    apply wellformed_sjis_bytes in E. rewrite Forall_forall in E.
    specialize (E v Hin). cbn beta in E. lia. }
  split; [exact Hu|]. split; [exact Hs|].
  intro Hz. unfold classify. now rewrite Hu, Hs, (zero_veto buf Hz).
Qed.

Lemma high_bytes_fail_validation_witness : classify sample_utf16 = Binary.
Proof.
  refine (proj2 (proj2 (high_bytes_fail_validation sample_utf16 255 _ _)) _).
  - left. reflexivity.
  - vm_compute. intro H. discriminate H.
  - right. right. right. left. reflexivity.
Defined.

Lemma classify_codes buf : classify buf = Text \/ classify buf = Binary.
Proof.
  unfold classify, Text, Binary.
  destruct (is_valid_utf8 _); [now left|].
  destruct (is_valid_shift_jis _); [now left|].
  destruct (count_non_printable _ _); [|now right].
  destruct (_ && _); [now right | now left].
Qed.

(** X8: [is_binary] returns -1 exactly when the file cannot be opened or
    the buffer cannot be allocated; every other result is 0 or 1. *)
Theorem unreadable_iff fopen_rb malloc_ok :
  let bin := is_binary fopen_rb malloc_ok in
  (bin = Unreadable <-> fopen_rb = None \/ malloc_ok = false)
  /\ (bin = Unreadable \/ bin = Text \/ bin = Binary).
Proof.
  cbn zeta. split; [|apply is_binary_codes].
  unfold is_binary, Unreadable.
  destruct fopen_rb as [content|]; [|split; [now left | reflexivity]].
  destruct malloc_ok; cbn [negb].
  - split.
    + intro H. destruct (classify_codes (take BINARY_CHECK_BYTES content)) as [E|E];
        rewrite E in H; discriminate H.
    + intros [H|H]; discriminate H.
  - split; [now right | reflexivity].
Qed.

End ClassifierMore.

(** ** More on paths and on the copy loop *)

Section UtilsMore.

Lemma strip_trailing_clean path : ends_in_sep (strip_trailing path) = false.
Proof.
  induction path as [|c r IH]; [reflexivity|].
  cbn [strip_trailing]. destruct (strip_trailing r) as [|c' r'] eqn:E.
  - destruct (is_sep c) eqn:S; [reflexivity | cbn; exact S].
  - exact IH.
Qed.

Lemma strip_trailing_fixed path : ends_in_sep path = false -> strip_trailing path = path.
Proof.
  induction path as [|c r IH]; [reflexivity|].
  intro H. cbn [strip_trailing]. destruct r as [|c' r'].
  - cbn in *. now rewrite H.
  - rewrite IH by exact H. reflexivity.
Qed.

Lemma strip_trailing_prefix path :
  strip_trailing path = take (String.length (strip_trailing path)) path.
Proof.
  induction path as [|c r IH]; [reflexivity|].
  cbn [strip_trailing]. destruct (strip_trailing r) as [|c' r'] eqn:E.
  - destruct (is_sep c); reflexivity.
  - cbn [String.length take]. f_equal. exact IH.
Qed.

Lemma strip_trailing_seps path :
  Forall (fun c => is_sep c = true) (chars path) -> strip_trailing path = "".
Proof.
  unfold chars. induction path as [|c r IH]; [reflexivity|].
  cbn. intro H. inversion H as [|x l Hc Hr]; subst.
  now rewrite (IH Hr), Hc.
Qed.

Lemma to_slashes_chars path : ~ In "\"%char (chars (to_slashes path)).
Proof.
  unfold chars. induction path as [|c r IH]; cbn; [tauto|].
  intros [H|H]; [|exact (IH H)].
  destruct (Ascii.eqb c "\") eqn:E; [discriminate H|].
  apply Ascii.eqb_neq in E. congruence.
Qed.

Lemma to_slashes_fixed path : ~ In "\"%char (chars path) -> to_slashes path = path.
Proof.
  unfold chars. induction path as [|c r IH]; cbn; intro H; [reflexivity|].
  destruct (Ascii.eqb c "\") eqn:E.
  - apply Ascii.eqb_eq in E. exfalso. apply H. now left.
  - f_equal. apply IH. tauto.
Qed.

Lemma to_slashes_length path : String.length (to_slashes path) = String.length path.
Proof. induction path as [|c r IH]; cbn; [reflexivity | now rewrite IH]. Qed.

Lemma take_chars n : forall s c, In c (chars (take n s)) -> In c (chars s).
Proof.
  unfold chars. induction n as [|k IH]; intros [|x r] c; cbn; try tauto.
  intros [H|H]; [now left | right; now apply IH].
Qed.

Lemma to_slashes_seps path :
  Forall (fun c => is_sep c = true) (chars path) ->
  Forall (fun c => is_sep c = true) (chars (to_slashes path)).
Proof.
  unfold chars. induction path as [|c r IH]; cbn; intro H; [constructor|].
  inversion H as [|x l Hc Hr]; subst. constructor; [|now apply IH].
  destruct (Ascii.eqb c "\"); [reflexivity | exact Hc].
Qed.

Lemma normalize_path_clean path :
  ~ In "\"%char (chars (normalize_path path))
  /\ ends_in_sep (normalize_path path) = false
  /\ (String.length (normalize_path path) <= String.length path)%nat.
Proof.
  unfold normalize_path.
  assert (Hpre := strip_trailing_prefix (to_slashes path)).
  split; [|split].
  - rewrite Hpre. intro H. apply take_chars in H. exact (to_slashes_chars path H).
  - apply strip_trailing_clean.
  - rewrite Hpre at 1. rewrite take_length, to_slashes_length. apply Nat.le_min_r.
Qed.

(** X9: the result of [normalize_path] holds no backslash and ends in no
    separator; it is a prefix of the path with its backslashes turned into
    slashes, is not longer than the path, and normalizing it again changes
    nothing. *)
Theorem normalize_path_normal_form path :
  let clean := normalize_path path in
  ~ In "\"%char (chars clean)
  /\ ends_in_sep clean = false
  /\ clean = take (String.length clean) (to_slashes path)
  /\ normalize_path clean = clean
  /\ (String.length clean <= String.length path)%nat.
Proof.
  cbn zeta. unfold normalize_path.
  assert (Hpre := strip_trailing_prefix (to_slashes path)).
  assert (Hbs : ~ In "\"%char (chars (strip_trailing (to_slashes path)))).
  { rewrite Hpre. intro H. apply take_chars in H. exact (to_slashes_chars path H). }
  split; [exact Hbs|].
  split; [apply strip_trailing_clean|].
  split; [exact Hpre|].
  split.
  - rewrite (to_slashes_fixed _ Hbs). apply strip_trailing_fixed, strip_trailing_clean.
  - rewrite Hpre at 1. rewrite take_length, to_slashes_length. apply Nat.le_min_r.
Qed.

(** X10: [normalize_path] leaves a path without backslash and without
    trailing separator as it is, and empties a path made of separators
    only. *)
Theorem normalize_path_fixpoints path :
  (~ In "\"%char (chars path) -> ends_in_sep path = false -> normalize_path path = path)
  /\ (Forall (fun c => is_sep c = true) (chars path) -> normalize_path path = "").
Proof.
  unfold normalize_path. split.
  - intros Hbs Hend. rewrite (to_slashes_fixed _ Hbs). now apply strip_trailing_fixed.
  - intro H. apply strip_trailing_seps, to_slashes_seps, H.
Qed.

Lemma normalize_path_fixpoints_witness :
  normalize_path "src/main.c" = "src/main.c" /\ normalize_path "/\/" = "".
Proof.
  split.
  - apply (proj1 (normalize_path_fixpoints "src/main.c")).
    + vm_compute. intuition discriminate.
    + reflexivity.
  - apply (proj2 (normalize_path_fixpoints "/\/")).
    repeat constructor.
Defined.

Lemma read_line_length n : forall stream,
  (String.length (fst (read_line n stream)) <= n)%nat.
Proof.
  induction n as [|k IH]; intros [|c r]; cbn [read_line]; try (cbn; lia).
  destruct (Ascii.eqb c LF); [cbn; lia|].
  specialize (IH r). destruct (read_line k r) as [line rest]. cbn in *. lia.
Qed.

Lemma c_str_length buffer : (String.length (c_str buffer) <= String.length buffer)%nat.
Proof.
  induction buffer as [|c r IH]; cbn; [lia|].
  destruct (Ascii.eqb c NUL); cbn; lia.
Qed.

Lemma c_str_zero_free buffer : ~ In 0 (bytes_of (c_str buffer)).
Proof.
  unfold bytes_of. induction buffer as [|c r IH]; cbn; [tauto|].
  destruct (Ascii.eqb c NUL) eqn:E; cbn; [tauto|].
  intros [H|H]; [|exact (IH H)].
  rewrite <- u8_zero in E. apply Z.eqb_neq in E. congruence.
Qed.

Lemma echo_lines_chunks fuel : forall stream text,
  In (Out text) (echo_lines fuel stream) ->
  (String.length text < BUFFER_SIZE)%nat /\ ~ In 0 (bytes_of text).
Proof.
  induction fuel as [|k IH]; intros stream text H; [contradiction|].
  cbn [echo_lines] in H. unfold fgets in H.
  destruct stream as [|c r]; [contradiction|].
  pose proof (read_line_length (BUFFER_SIZE - 1) (String c r)) as Hl.
  destruct (read_line (BUFFER_SIZE - 1) (String c r)) as [buffer rest].
  cbn [fst] in Hl. destruct H as [H|H]; [|exact (IH _ _ H)].
  inversion H; subst. split; [|apply c_str_zero_free].
  pose proof (c_str_length buffer). unfold BUFFER_SIZE in *. lia.
Qed.

Lemma echo_lines_shrinks fuel : forall stream,
  (String.length (sink (echo_lines fuel stream)) <= String.length stream)%nat.
Proof.
  induction fuel as [|k IH]; intro stream; [cbn; lia|].
  cbn [echo_lines]. unfold fgets.
  destruct stream as [|c r]; [cbn; lia|].
  pose proof (read_line_split (BUFFER_SIZE - 1) (String c r)) as Hs.
  destruct (read_line (BUFFER_SIZE - 1) (String c r)) as [buffer rest].
  cbn [fst snd] in Hs. cbn [sink]. rewrite <- Hs, !length_append.
  specialize (IH rest). pose proof (c_str_length buffer). lia.
Qed.

(** X11: the copy loop of [print_file_content] writes pieces shorter than
    [BUFFER_SIZE] that hold no zero byte, and in all no more bytes than the
    file has. *)
Theorem echo_chunks content :
  let t := echo_lines (S (String.length content)) content in
  (forall text, In (Out text) t ->
     (String.length text < BUFFER_SIZE)%nat /\ ~ In 0 (bytes_of text))
  /\ (String.length (sink t) <= String.length content)%nat
  /\ ~ In 0 (bytes_of (sink t)).
Proof.
  cbn zeta. split; [apply echo_lines_chunks|].
  split; [apply echo_lines_shrinks|].
  generalize (S (String.length content)) as fuel. intro fuel. revert content.
  induction fuel as [|k IH]; intro stream; [cbn; tauto|].
  cbn [echo_lines]. destruct (fgets _ _) as [[buffer rest]|]; [|cbn; tauto].
  cbn [sink]. rewrite bytes_of_app. intro H. apply in_app_or in H as [H|H].
  - exact (c_str_zero_free buffer H).
  - exact (IH rest H).
Qed.

End UtilsMore.

(** ** More on the Walker *)

Section WalkerMore.

(** X12: the loop over a directory handles the entries in the order
    [readdir] yields them: its trace over one listing followed by another
    is the trace over the first followed by the trace over the second. *)
Theorem enumeration_order s1 : forall s2 dir_path depth m ofp,
  readdir_loop dir_path (stream_app s1 s2) depth m ofp
  = (readdir_loop dir_path s1 depth m ofp ++ readdir_loop dir_path s2 depth m ofp)%list.
Proof.
  induction s1 as [|name st rest IH]; intros s2 p depth m ofp; [reflexivity|].
  cbn [stream_app]. rewrite !readdir_loop_step. cbn zeta. rewrite IH.
  destruct (is_dot name); [reflexivity|].
  destruct st as [|f|d']; cbn [app].
  - reflexivity.
  - destruct (String.eqb _ _); [reflexivity|]. now rewrite app_assoc.
  - now rewrite app_assoc.
Qed.

Lemma opendirs_app t1 t2 : opendirs (t1 ++ t2)%list = (opendirs t1 + opendirs t2)%nat.
Proof.
  induction t1 as [|e t IH]; cbn; [reflexivity|].
  destruct e; cbn; try exact IH. now rewrite IH.
Qed.

Lemma opendirs_echo_lines fuel : forall stream, opendirs (echo_lines fuel stream) = O.
Proof.
  induction fuel as [|k IH]; intro stream; cbn; [reflexivity|].
  destruct (fgets _ _) as [[buffer rest]|]; cbn; [apply IH | reflexivity].
Qed.

Lemma opendirs_print_file_content path f : opendirs (print_file_content path f) = O.
Proof.
  unfold print_file_content. cbn [opendirs].
  destruct (_ =? -1); [reflexivity|]. destruct (_ =? 1); [reflexivity|].
  destruct (fopen_r f); [|reflexivity].
  cbn [opendirs]. rewrite opendirs_app, opendirs_echo_lines. reflexivity.
Qed.

(** Called within the limit, the Walker opens every directory it is called
    on: the guard at its head returns for no call. *)
Lemma guard_never_returns :
  (forall d dir_path depth m ofp,
      m = -1 \/ depth <= m ->
      opendirs (traverse_directory dir_path d depth m ofp)
      = List.length (entered (traverse_directory dir_path d depth m ofp)))
  /\ (forall entries dir_path depth m ofp,
      m = -1 \/ depth <= m ->
      opendirs (readdir_loop dir_path entries depth m ofp)
      = List.length (entered (readdir_loop dir_path entries depth m ofp)))
  /\ (forall st,
      match st with
      | Is_dir d =>
          forall dir_path depth m ofp,
            m = -1 \/ depth <= m ->
            opendirs (traverse_directory dir_path d depth m ofp)
            = List.length (entered (traverse_directory dir_path d depth m ofp))
      | _ => True
      end).
Proof.
  assert (G : forall depth m, m = -1 \/ depth <= m ->
                negb (m =? -1) && (m <? depth) = false).
  { intros depth m [->|H]; [reflexivity | now apply guard_passes]. }
  apply host_tree_ind.
  - intros p depth m ofp Hm. rewrite traverse_directory_step, (G _ _ Hm). reflexivity.
  - intros entries IH p depth m ofp Hm. rewrite traverse_directory_step, (G _ _ Hm).
    cbn [opendirs entered List.length]. f_equal. now apply IH.
  - reflexivity.
  - intros name st IHst rest IHrest p depth m ofp Hm.
    rewrite readdir_loop_step. cbn zeta.
    destruct (is_dot name); [now apply IHrest|].
    destruct st as [|f|d']; cbn [opendirs entered].
    + now apply IHrest.
    + destruct (String.eqb _ _); [now apply IHrest|].
      rewrite opendirs_app, entered_app, opendirs_print_file_content,
        entered_print_file_content. now apply IHrest.
    + rewrite opendirs_app, entered_app, length_app, (IHrest p depth m ofp Hm).
      f_equal.
      destruct ((m =? -1) || (depth <? m)) eqn:E; [|reflexivity].
      apply IHst. apply orb_true_iff in E as [E|E];
        [left; now apply Z.eqb_eq | right; apply Z.ltb_lt in E; lia].
  - exact I.
  - intros; exact I.
  - intros d IH. exact IH.
Qed.

(** Each subdirectory is entered at most once, and exactly once without a
    depth limit. *)
Lemma entered_count :
  (forall d dir_path depth m ofp,
      (List.length (entered (traverse_directory dir_path d depth m ofp)) <= 1 + subdirs d)%nat
      /\ (m = -1 ->
          List.length (entered (traverse_directory dir_path d depth m ofp))
          = (1 + subdirs d)%nat))
  /\ (forall entries dir_path depth m ofp,
      (List.length (entered (readdir_loop dir_path entries depth m ofp))
       <= subdirs_of entries)%nat
      /\ (m = -1 ->
          List.length (entered (readdir_loop dir_path entries depth m ofp))
          = subdirs_of entries))
  /\ (forall st,
      match st with
      | Is_dir d =>
          forall dir_path depth m ofp,
            (List.length (entered (traverse_directory dir_path d depth m ofp))
             <= 1 + subdirs d)%nat
            /\ (m = -1 ->
                List.length (entered (traverse_directory dir_path d depth m ofp))
                = (1 + subdirs d)%nat)
      | _ => True
      end).
Proof.
  apply host_tree_ind.
  - intros p depth m ofp. rewrite traverse_directory_step.
    split; [destruct (_ && _); cbn; lia | intros ->; reflexivity].
  - intros entries IH p depth m ofp. rewrite traverse_directory_step.
    destruct (IH p depth m ofp) as [Hle Heq]. split.
    + destruct (_ && _); cbn [entered List.length subdirs]; lia.
    + intro Hm. subst m. change (negb (-1 =? -1) && (-1 <? depth)) with false.
      cbn [entered List.length subdirs]. now rewrite (Heq eq_refl).
  - intros; split; reflexivity.
  - intros name st IHst rest IHrest p depth m ofp.
    rewrite readdir_loop_step. cbn zeta. cbn [subdirs_of].
    destruct (IHrest p depth m ofp) as [Hle Heq].
    destruct (is_dot name); [split; [cbn; lia | intro H; rewrite (Heq H); reflexivity]|].
    destruct st as [|f|d']; cbn [entered].
    + split; [lia | exact Heq].
    + destruct (String.eqb _ _); [split; [lia | exact Heq]|].
      rewrite entered_app, entered_print_file_content. split; [cbn; lia | exact Heq].
    + rewrite entered_app, length_app.
      destruct (IHst (child_path p name) (depth + 1) m ofp) as [Hle' Heq'].
      split.
      * destruct (_ || _); cbn [entered List.length]; lia.
      * intro Hm. subst m. change ((-1 =? -1) || (depth <? -1)) with true.
        rewrite (Heq eq_refl), (Heq' eq_refl). lia.
  - exact I.
  - intros; exact I.
  - intros d IH. exact IH.
Qed.

(** X13: the number of calls of the Walker is at most one (the directory it
    starts from) plus the number of subdirectories below it, and exactly
    that number when there is no depth limit. *)
Theorem each_directory_once d dir_path depth m ofp :
  (List.length (entered (traverse_directory dir_path d depth m ofp)) <= 1 + subdirs d)%nat
  /\ List.length (entered (traverse_directory dir_path d depth (-1) ofp))
     = (1 + subdirs d)%nat.
Proof.
  split.
  - apply (proj1 entered_count).
  - apply (proj1 entered_count d dir_path depth (-1) ofp). reflexivity.
Qed.

(** Raising the limit only adds events. *)
Lemma deeper_limit_adds :
  (forall d dir_path depth m m' ofp e,
      at_least_as_deep m m' ->
      In e (traverse_directory dir_path d depth m ofp) ->
      In e (traverse_directory dir_path d depth m' ofp))
  /\ (forall entries dir_path depth m m' ofp e,
      at_least_as_deep m m' ->
      In e (readdir_loop dir_path entries depth m ofp) ->
      In e (readdir_loop dir_path entries depth m' ofp))
  /\ (forall st,
      match st with
      | Is_dir d =>
          forall dir_path depth m m' ofp e,
            at_least_as_deep m m' ->
            In e (traverse_directory dir_path d depth m ofp) ->
            In e (traverse_directory dir_path d depth m' ofp)
      | _ => True
      end).
Proof.
  assert (G : forall depth m m', at_least_as_deep m m' ->
                negb (m' =? -1) && (m' <? depth) = true ->
                negb (m =? -1) && (m <? depth) = true).
  { intros depth m m' [->|[Hm Hle]] H; [discriminate H|].
    apply andb_true_iff in H as [_ H]. apply Z.ltb_lt in H.
    apply andb_true_iff. split; [apply negb_true_iff; now apply Z.eqb_neq|].
    apply Z.ltb_lt. lia. }
  assert (R : forall depth m m', at_least_as_deep m m' ->
                (m =? -1) || (depth <? m) = true ->
                (m' =? -1) || (depth <? m') = true).
  { intros depth m m' [->|[Hm Hle]] H; [reflexivity|].
    apply orb_true_iff in H as [H|H]; [apply Z.eqb_eq in H; contradiction|].
    apply Z.ltb_lt in H. apply orb_true_iff. right. apply Z.ltb_lt. lia. }
  apply host_tree_ind.
  - intros p depth m m' ofp e A. rewrite !traverse_directory_step.
    destruct (negb (m' =? -1) && (m' <? depth)) eqn:E'.
    + now rewrite (G _ _ _ A E').
    + destruct (negb (m =? -1) && (m <? depth)); cbn; tauto.
  - intros entries IH p depth m m' ofp e A. rewrite !traverse_directory_step.
    destruct (negb (m' =? -1) && (m' <? depth)) eqn:E'.
    + now rewrite (G _ _ _ A E').
    + destruct (negb (m =? -1) && (m <? depth)); cbn [In]; [tauto|].
      intros [H|[H|H]]; [tauto | tauto | right; right; exact (IH _ _ _ _ _ _ A H)].
  - intros; assumption.
  - intros name st IHst rest IHrest p depth m m' ofp e A.
    rewrite !readdir_loop_step. cbn zeta.
    destruct (is_dot name); [now apply IHrest|].
    destruct st as [|f|d']; cbn [In].
    + intros [H|[H|H]]; [tauto | tauto | right; right; exact (IHrest _ _ _ _ _ _ A H)].
    + intros [H|H]; [tauto | right].
      destruct (String.eqb _ _); [exact (IHrest _ _ _ _ _ _ A H)|].
      apply in_app_or in H as [H|H]; apply in_or_app;
        [now left | right; exact (IHrest _ _ _ _ _ _ A H)].
    + intros [H|H]; [tauto | right].
      apply in_app_or in H as [H|H]; apply in_or_app;
        [left | right; exact (IHrest _ _ _ _ _ _ A H)].
      destruct ((m =? -1) || (depth <? m)) eqn:E; [|contradiction].
      rewrite (R _ _ _ A E). exact (IHst _ _ _ _ _ _ A H).
  - exact I.
  - intros; exact I.
  - intros d IH. exact IH.
Qed.

(** X14: whatever a traversal does under a depth limit, it also does under
    a larger limit and under no limit. *)
Theorem deeper_limit_only_adds d dir_path depth m m' ofp e :
  at_least_as_deep m m' ->
  In e (traverse_directory dir_path d depth m ofp) ->
  In e (traverse_directory dir_path d depth m' ofp).
Proof. apply (proj1 deeper_limit_adds). Qed.

Lemma deeper_limit_only_adds_witness :
  In (Fopen "r/a.txt" "rb" true) (traverse_directory "r" tree_depth_one 0 5 "").
Proof.
  apply (deeper_limit_only_adds tree_depth_one "r" 0 0 5 "").
  - right. split; [discriminate | lia].
  - vm_compute. right. right. right. left. reflexivity.
Defined.

Lemma child_path_clean dir_path name :
  (String.length (child_path dir_path name) < MAX_PATH_LENGTH)%nat
  /\ ~ In "\"%char (chars (child_path dir_path name))
  /\ ends_in_sep (child_path dir_path name) = false.
Proof.
  unfold child_path.
  destruct (normalize_path_clean (snprintf MAX_PATH_LENGTH (dir_path ++ "/" ++ name)))
    as (Hbs & Hend & Hlen).
  split; [|split; assumption].
  unfold snprintf in *. rewrite take_length in Hlen.
  unfold MAX_PATH_LENGTH in *. lia.
Qed.

(** Every path the Walker hands to [fopen] is one it built for an entry,
    and it opens it for reading. *)
Lemma opened_are_children :
  (forall d dir_path depth m ofp q mode,
      In (q, mode) (opened (traverse_directory dir_path d depth m ofp)) ->
      (exists dir name, q = child_path dir name) /\ (mode = "rb" \/ mode = "r"))
  /\ (forall entries dir_path depth m ofp q mode,
      In (q, mode) (opened (readdir_loop dir_path entries depth m ofp)) ->
      (exists dir name, q = child_path dir name) /\ (mode = "rb" \/ mode = "r"))
  /\ (forall st,
      match st with
      | Is_dir d =>
          forall dir_path depth m ofp q mode,
            In (q, mode) (opened (traverse_directory dir_path d depth m ofp)) ->
            (exists dir name, q = child_path dir name) /\ (mode = "rb" \/ mode = "r")
      | _ => True
      end).
Proof.
  apply host_tree_ind.
  - intros p depth m ofp q mode. rewrite traverse_directory_step.
    destruct (_ && _); cbn; intros [].
  - intros entries IH p depth m ofp q mode. rewrite traverse_directory_step.
    destruct (_ && _); cbn [opened]; [intros []|]. apply IH.
  - intros; contradiction.
  - intros name st IHst rest IHrest p depth m ofp q mode.
    rewrite readdir_loop_step. cbn zeta.
    destruct (is_dot name); [apply IHrest|].
    destruct st as [|f|d']; cbn [opened].
    + apply IHrest.
    + destruct (String.eqb _ _); [apply IHrest|].
      rewrite opened_app, opened_print_file_content. intro H.
      apply in_app_or in H as [H|H]; [|exact (IHrest _ _ _ _ _ _ H)].
      destruct (_ =? Text);
        [destruct H as [H|[H|[]]] | destruct H as [H|[]]];
        inversion H; subst; (split; [now exists p, name | tauto]).
    + rewrite opened_app. intro H.
      apply in_app_or in H as [H|H]; [|exact (IHrest _ _ _ _ _ _ H)].
      destruct (_ || _); [exact (IHst _ _ _ _ _ _ H) | contradiction].
  - exact I.
  - intros; exact I.
  - intros d IH. exact IH.
Qed.

(** X15: every path the Walker opens is opened for reading, is shorter than
    [MAX_PATH_LENGTH], holds no backslash and ends in no separator. *)
Theorem walker_reads_clean_paths d dir_path depth m ofp q mode :
  In (q, mode) (opened (traverse_directory dir_path d depth m ofp)) ->
  (mode = "rb" \/ mode = "r")
  /\ (String.length q < MAX_PATH_LENGTH)%nat
  /\ ~ In "\"%char (chars q)
  /\ ends_in_sep q = false.
Proof.
  intro H. destruct (proj1 opened_are_children _ _ _ _ _ _ _ H) as [(dir & name & ->) Hmode].
  split; [exact Hmode | apply child_path_clean].
Qed.

Lemma walker_reads_clean_paths_witness :
  ("rb" = "rb" \/ "rb" = "r")
  /\ (String.length "r//a.txt" < MAX_PATH_LENGTH)%nat
  /\ ~ In "\"%char (chars "r//a.txt")
  /\ ends_in_sep "r//a.txt" = false.
Proof.
  apply (walker_reads_clean_paths tree_depth_one "r\" 0 0 "" "r//a.txt" "rb").
  vm_compute. left. reflexivity.
Defined.

(** X16: the Walker opens no path whose text equals [output_file_path]. *)
Theorem output_path_skipped d dir_path depth m ofp q mode :
  In (q, mode) (opened (traverse_directory dir_path d depth m ofp)) -> q <> ofp.
Proof. apply (proj1 output_path_never_opened). Qed.

Lemma output_path_skipped_witness :
  opened (traverse_directory "/home/u" tree_with_output 0 (-1) "/home/u/out.txt")
  = [("/home/u/a.txt", "rb"); ("/home/u/a.txt", "r")]
  /\ "/home/u/a.txt" <> "/home/u/out.txt".
Proof.
  split; [reflexivity|].
  apply (output_path_skipped tree_with_output "/home/u" 0 (-1) "/home/u/out.txt"
           "/home/u/a.txt" "rb").
  vm_compute. left. reflexivity.
Defined.

End WalkerMore.

(** ** More on main *)

Section RunsMore.

Lemma option_loop_accepted acc : forall opts,
  Forall accepted_option acc ->
  exists opts', forall more,
    option_loop (acc ++ more) opts = option_loop more opts'.
Proof.
  induction acc as [|a acc IH]; intros opts H.
  - exists opts. reflexivity.
  - inversion H as [|x l Ha Hacc]; subst.
    destruct a as [optarg|optarg n| |optopt|]; try contradiction; cbn [accepted_option] in Ha.
    + destruct (IH {| output_file := take (MAX_OUTPUT_FILE - 1) optarg;
                      max_depth := max_depth opts |} Hacc) as [opts' E].
      exists opts'. intro more. cbn [app option_loop]. apply E.
    + destruct (IH {| output_file := output_file opts; max_depth := n |} Hacc) as [opts' E].
      exists opts'. intro more. cbn [app option_loop].
      replace (n <? 0) with false by (symmetry; apply Z.ltb_ge; exact Ha). apply E.
Qed.

(** X18: when [-h] comes after options that are accepted, [main] prints the
    usage and returns [EXIT_SUCCESS] without looking at the directory
    argument, the options after it or the file system. *)
Theorem help_wins h acc more :
  2 <= argc h ->
  getopt_long h = (acc ++ Opt_h :: more)%list ->
  Forall accepted_option acc ->
  main h = (EXIT_SUCCESS, print_usage).
Proof.
  intros Hargc Hopts Hacc. unfold main.
  replace (argc h <? 2) with false by (symmetry; apply Z.ltb_ge; exact Hargc).
  destruct (option_loop_accepted acc {| output_file := ""; max_depth := -1 |} Hacc)
    as [opts' E].
  rewrite Hopts, E. reflexivity.
Qed.

Lemma help_wins_witness :
  main run_help_without_directory = (EXIT_SUCCESS, print_usage).
Proof.
  apply (help_wins run_help_without_directory [Opt_d "3" 3] [Opt_d "-1" (-1)]).
  - vm_compute. intro H. discriminate H.
  - reflexivity.
  - repeat constructor. vm_compute. intro H. discriminate H.
Defined.

Lemma host_untouched_print_usage : host_untouched print_usage.
Proof.
  repeat split. intros p ok H. cbn in H.
  repeat (destruct H as [H|H]; [discriminate H|]). exact H.
Qed.

(** X19: a negative depth or an unknown option after accepted options makes
    [main] return [EXIT_FAILURE] before any request to the file system and
    with nothing written to the sink. *)
Theorem bad_option_fails h acc bad more :
  2 <= argc h ->
  getopt_long h = (acc ++ bad :: more)%list ->
  Forall accepted_option acc ->
  rejected_option bad ->
  fst (main h) = EXIT_FAILURE /\ host_untouched (snd (main h)).
Proof.
  intros Hargc Hopts Hacc Hbad. unfold main.
  replace (argc h <? 2) with false by (symmetry; apply Z.ltb_ge; exact Hargc).
  destruct (option_loop_accepted acc {| output_file := ""; max_depth := -1 |} Hacc)
    as [opts' E].
  rewrite Hopts, E.
  destruct bad as [optarg|optarg n| |optopt|]; try contradiction; cbn [rejected_option] in Hbad;
    cbn [option_loop].
  - replace (n <? 0) with true by (symmetry; apply Z.ltb_lt; exact Hbad).
    cbn [fst snd]. split; [reflexivity|]. repeat split.
    intros p ok [H|[]]. discriminate H.
  - cbn [fst snd]. split; [reflexivity|].
    destruct optopt; (repeat split; intros p ok H; cbn in H;
      repeat (destruct H as [H|H]; [discriminate H|]); exact H).
  - cbn [fst snd]. split; [reflexivity | apply host_untouched_print_usage].
Qed.

Lemma bad_option_fails_witness :
  fst (main run_negative_depth) = EXIT_FAILURE
  /\ host_untouched (snd (main run_negative_depth)).
Proof.
  apply (bad_option_fails run_negative_depth [Opt_o "out.txt"] (Opt_d "-2" (-2)) []).
  - vm_compute. intro H. discriminate H.
  - reflexivity.
  - repeat constructor.
  - reflexivity.
Defined.

Lemma setup_quiet t : Forall setup_event t -> quiet t /\ opendirs t = O.
Proof.
  induction 1 as [|e t He _ IH]; [repeat split|].
  destruct IH as [[E S] O].
  destruct e; try contradiction; repeat split; assumption.
Qed.

Lemma setup_print_usage : Forall setup_event print_usage.
Proof. repeat constructor. Qed.

Lemma option_loop_facts answers : forall opts,
  Forall setup_event (fst (option_loop answers opts))
  /\ opened (fst (option_loop answers opts)) = []
  /\ match snd (option_loop answers opts) with
     | inl code => code = EXIT_FAILURE \/ In Opt_h answers
     | inr opts' =>
         output_file opts' = output_file opts
         \/ kept_name answers (output_file opts')
     end.
Proof.
  induction answers as [|a more IH]; intro opts; cbn [option_loop].
  - repeat split; [constructor | now left].
  - destruct a as [optarg|optarg n| |optopt|].
    + destruct (IH {| output_file := take (MAX_OUTPUT_FILE - 1) optarg;
                      max_depth := max_depth opts |}) as (F & O & R).
      split; [exact F|]. split; [exact O|].
      destruct (snd (option_loop more _)) as [code|opts'].
      * destruct R as [R|R]; [now left | right; now right].
      * right. destruct R as [R|(o & Ho & E)].
        -- exists optarg. split; [now left | exact R].
        -- exists o. split; [now right | exact E].
    + destruct (n <? 0).
      * cbn [fst snd]. repeat split; [repeat constructor | now left].
      * destruct (IH {| output_file := output_file opts; max_depth := n |}) as (F & O & R).
        split; [exact F|]. split; [exact O|].
        destruct (snd (option_loop more _)) as [code|opts'].
        -- destruct R as [R|R]; [now left | right; now right].
        -- destruct R as [R|(o & Ho & E)]; [now left|].
           right. exists o. split; [now right | exact E].
    + cbn [fst snd]. repeat split; [apply setup_print_usage | right; now left].
    + cbn [fst snd]. destruct optopt; (repeat split; [repeat constructor | now left]).
    + cbn [fst snd]. repeat split; [apply setup_print_usage | now left].
Qed.

Lemma open_output_facts h opts :
  Forall setup_event (fst (open_output h opts))
  /\ (forall p mode, In (p, mode) (opened (fst (open_output h opts))) ->
      p = output_file opts /\ p <> "")
  /\ match snd (open_output h opts) with
     | inl code => code = EXIT_FAILURE
     | inr _ => True
     end.
Proof.
  unfold open_output.
  destruct (String.eqb (output_file opts) "") eqn:E.
  { repeat split; try constructor; contradiction. }
  apply String.eqb_neq in E.
  assert (W : forall ofp,
    Forall setup_event
      (fst (if fopen_w h
            then ([Fopen (output_file opts) "w" true], inr ofp)
            else ([Fopen (output_file opts) "w" false;
                   Eprintf ("Error: Cannot open output file: " ++ output_file opts ++ nl)],
                  @inl Z string EXIT_FAILURE)))
    /\ (forall p mode,
          In (p, mode)
            (opened
               (fst (if fopen_w h
                     then ([Fopen (output_file opts) "w" true], inr ofp)
                     else ([Fopen (output_file opts) "w" false;
                            Eprintf ("Error: Cannot open output file: "
                                     ++ output_file opts ++ nl)],
                           @inl Z string EXIT_FAILURE)))) ->
          p = output_file opts /\ p <> "")
    /\ match snd (if fopen_w h
                  then ([Fopen (output_file opts) "w" true], inr ofp)
                  else ([Fopen (output_file opts) "w" false;
                         Eprintf ("Error: Cannot open output file: "
                                  ++ output_file opts ++ nl)],
                        @inl Z string EXIT_FAILURE)) with
       | inl code => code = EXIT_FAILURE
       | inr _ => True
       end).
  { intro ofp. destruct (fopen_w h); cbn [fst snd opened].
    - repeat split; [repeat constructor | | ];
        try (intros p mode [H|[]]; inversion H; subst; tauto).
      destruct H as [H|[]]. inversion H. reflexivity.
      destruct H as [H|[]]. inversion H. subst. exact E.
    - repeat split; [repeat constructor | | ].
      destruct H as [H|[]]. inversion H. reflexivity.
      destruct H as [H|[]]. inversion H. subst. exact E. }
  destruct (realpath h) as [resolved|]; [apply W|].
  destruct (getcwd h) as [cwd|].
  - destruct (_ <=? _); [|apply W].
    repeat split; try (repeat constructor); contradiction.
  - repeat split; try (repeat constructor); contradiction.
Qed.

Lemma setup_app t1 t2 :
  Forall setup_event t1 -> Forall setup_event t2 -> Forall setup_event (t1 ++ t2)%list.
Proof. intros H1 H2. apply Forall_app. now split. Qed.

(** The part of a run before the banner, and how the run goes on. *)
Lemma main_setup h :
  exists pre,
    Forall setup_event pre
    /\ (forall p mode, In (p, mode) (opened pre) ->
        kept_name (getopt_long h) p /\ p <> "")
    /\ (operand h = None \/ stat_dir h <> Some true -> opened pre = [])
    /\ ((snd (main h) = pre
         /\ (fst (main h) = EXIT_FAILURE \/ In Opt_h (getopt_long h)))
        \/ (exists dir_path m ofp,
              operand h = Some dir_path
              /\ stat_dir h = Some true
              /\ depth_option m
              /\ main h
                 = (EXIT_SUCCESS,
                    (pre
                     ++ [Out rule_equals;
                         Out (normalize_path (snprintf MAX_PATH_LENGTH dir_path)
                              ++ "/" ++ nl);
                         Out rule_equals]
                     ++ traverse_directory
                          (normalize_path (snprintf MAX_PATH_LENGTH dir_path))
                          (root h) 0 m ofp)%list))).
Proof.
  unfold main.
  destruct (argc h <? 2).
  { exists print_usage. split; [apply setup_print_usage|].
    split; [intros p mode []|]. split; [reflexivity|]. left. split; [reflexivity | now left]. }
  pose proof (option_loop_facts (getopt_long h) {| output_file := ""; max_depth := -1 |})
    as (F0 & O0 & R0).
  pose proof (option_loop_quiet (getopt_long h) {| output_file := ""; max_depth := -1 |}
                (or_introl eq_refl)) as [_ D0].
  destruct (option_loop _ _) as [t0 [code|opts]]; cbn [fst snd] in *.
  { exists t0. split; [exact F0|]. rewrite O0.
    split; [intros p mode []|]. split; [reflexivity|]. left. split; [reflexivity | exact R0]. }
  destruct (operand h) as [dir_path|].
  2:{ take_trace. split; [apply setup_app; [exact F0 | repeat constructor]|].
      rewrite opened_app, O0. split; [intros p mode []|]. split; [reflexivity|].
      left. split; [reflexivity | now left]. }
  destruct (stat_dir h) as [[|]|].
  - pose proof (open_output_facts h opts) as (F1 & O1 & R1).
    assert (Hw : forall p mode,
               In (p, mode) (opened (t0 ++ Stat dir_path true :: fst (open_output h opts))%list) ->
               kept_name (getopt_long h) p /\ p <> "").
    { intros p mode H. rewrite opened_app, O0 in H. cbn [app opened] in H.
      destruct (O1 p mode H) as [E Hne]. split; [|exact Hne].
      destruct R0 as [R0|R0]; [cbn in R0; congruence | now rewrite E]. }
    destruct (open_output h opts) as [t1 [code|ofp]]; cbn [fst snd] in *.
    + exists (t0 ++ Stat dir_path true :: t1)%list.
      split; [apply setup_app; [exact F0 | constructor; [exact I | exact F1]]|].
      split; [exact Hw|]. split; [intros [H|H]; [discriminate H | now elim H]|].
      left. split; [reflexivity | left; exact R1].
    + exists (t0 ++ Stat dir_path true :: t1)%list.
      split; [apply setup_app; [exact F0 | constructor; [exact I | exact F1]]|].
      split; [exact Hw|]. split; [intros [H|H]; [discriminate H | now elim H]|].
      right. exists dir_path, (max_depth opts), ofp.
      repeat split; [exact D0|]. f_equal. rewrite <- app_assoc. reflexivity.
  - take_trace. split; [apply setup_app; [exact F0 | repeat constructor]|].
    rewrite opened_app, O0. split; [intros p mode []|]. split; [reflexivity|].
    left. split; [reflexivity | now left].
  - take_trace. split; [apply setup_app; [exact F0 | repeat constructor]|].
    rewrite opened_app, O0. split; [intros p mode []|]. split; [reflexivity|].
    left. split; [reflexivity | now left].
Qed.

(** X20: without a directory argument, or when it does not name a
    directory, [main] opens no file (the output file is neither created nor
    truncated), writes nothing to the sink, and returns [EXIT_FAILURE]
    unless [-h] was among the options. *)
Theorem invalid_root_touches_nothing h :
  operand h = None \/ stat_dir h <> Some true ->
  opened (snd (main h)) = []
  /\ quiet (snd (main h))
  /\ (fst (main h) = EXIT_FAILURE \/ In Opt_h (getopt_long h)).
Proof.
  intro H. destruct (main_setup h) as (pre & F & _ & O & [[E C]|(dir_path & m & ofp & Hop & Hst & _)]).
  - rewrite E. split; [exact (O H)|]. split; [apply setup_quiet, F | exact C].
  - destruct H as [H|H]; congruence.
Qed.

Lemma invalid_root_touches_nothing_witness :
  opened (snd (main run_missing_root)) = []
  /\ quiet (snd (main run_missing_root))
  /\ (fst (main run_missing_root) = EXIT_FAILURE
      \/ In Opt_h (getopt_long run_missing_root)).
Proof.
  apply (invalid_root_touches_nothing run_missing_root).
  right. intro H. discriminate H.
Defined.

(** X21: a file that [main] opens for writing is named by the first
    [MAX_OUTPUT_FILE - 1] bytes of an [-o] argument, and the name is not
    empty. *)
Theorem output_name_kept h path :
  In (path, "w") (opened (snd (main h))) ->
  (0 < String.length path < MAX_OUTPUT_FILE)%nat
  /\ exists optarg,
       In (Opt_o optarg) (getopt_long h)
       /\ path = take (MAX_OUTPUT_FILE - 1) optarg.
Proof.
  intro H.
  assert (K : forall p, kept_name (getopt_long h) p /\ p <> "" ->
                (0 < String.length p < MAX_OUTPUT_FILE)%nat
                /\ exists optarg,
                     In (Opt_o optarg) (getopt_long h)
                     /\ p = take (MAX_OUTPUT_FILE - 1) optarg).
  { intros p [(optarg & Hin & E) Hne]. split; [|now exists optarg].
    split; [destruct p; [congruence | cbn; lia]|].
    rewrite E, take_length. unfold MAX_OUTPUT_FILE. lia. }
  destruct (main_setup h) as (pre & F & W & _ & [[E C]|(dir_path & m & ofp & _ & _ & _ & Hrun)]).
  - rewrite E in H. exact (K _ (W _ _ H)).
  - rewrite Hrun in H. cbn [snd] in H. rewrite !opened_app in H. cbn [opened app] in H.
    apply in_app_or in H as [H|H]; [exact (K _ (W _ _ H))|].
    apply (proj1 opened_are_children) in H as [_ [Hm|Hm]]; discriminate Hm.
Qed.

Lemma output_name_kept_witness :
  (0 < String.length "out.txt" < MAX_OUTPUT_FILE)%nat
  /\ exists optarg,
       In (Opt_o optarg) (getopt_long run_relative_root)
       /\ "out.txt" = take (MAX_OUTPUT_FILE - 1) optarg.
Proof.
  apply (output_name_kept run_relative_root "out.txt").
  vm_compute. left. reflexivity.
Defined.

(** X17: in every run of [main], each call of [traverse_directory] reaches
    its [opendir]: the depth guard at the head of the function returns in
    no run. *)
Theorem every_call_opens h :
  opendirs (snd (main h)) = List.length (entered (snd (main h))).
Proof.
  destruct (main_setup h) as (pre & F & _ & _ & [[E C]|(dir_path & m & ofp & _ & _ & D & Hrun)]);
    destruct (setup_quiet pre F) as [[Een _] Eop].
  - now rewrite E, Een, Eop.
  - rewrite Hrun. cbn [snd].
    rewrite !opendirs_app, !entered_app, Een, Eop. cbn [opendirs entered app Nat.add].
    apply (proj1 guard_never_returns). destruct D as [D|D]; [now left | now right].
Qed.

End RunsMore.
